(** * cs465-lab2-places: the place list of [src/src/App.jsx]

    A shallow embedding of the single component [App]: its five state
    cells, the two effects (load from and persist to [localStorage]), the
    reverse-geocode lookup and the event handlers, followed by the
    properties of the design contract that can be decided on them.

    Conventions of the embedding.
    - A JavaScript value is a term of [value]; an object is the ordered
      list of its own properties, an array the list of its elements.
    - A number is an IEEE 754 binary64 datum ([spec_float]).
    - A string is a sequence of code units; the model keeps the code
      units below 256 (the [ascii] of the standard library).
    - A character text handed to [JSON.parse] or produced by
      [JSON.stringify] is represented by what it denotes: nothing (the
      empty text), no JSON value at all, or a JSON document tree. White
      space, escapes and the two-space indentation of the export are not
      visible at this level.
    - Code that can throw returns a [completion]; code that also touches
      the state cells, the storage or the dialogs runs in the monad [M]. *)

From Stdlib Require Import String Ascii List Bool ZArith Lia SpecFloat DecimalString.
Import ListNotations.
Local Open Scope string_scope.
Local Open Scope list_scope.

(** ** JavaScript values *)

Module JS.

Definition number := spec_float.

(** binary64: 53 bits of precision, exponents below 1024 *)
Definition of_Z (z : Z) : number := binary_normalize 53 1024 z 0 false.

Definition isFinite (n : number) : bool :=
  match n with
  | S754_zero _ | S754_finite _ _ _ => true
  | S754_infinity _ | S754_nan => false
  end.

Unset Elimination Schemes.
Inductive value : Type :=
| VUndefined
| VNull
| VBool (b : bool)
| VNum (n : number)
| VStr (s : string)
| VArr (elems : list value)
| VObj (props : list (string * value)).
Set Elimination Schemes.

Definition props_of := list (string * value).

Inductive error : Type :=
| TypeError (msg : string)
| SyntaxError
| NetworkError.

Inductive completion (A : Type) : Type :=
| Normal (a : A)
| Throw (e : error).
Arguments Normal {A} a.
Arguments Throw {A} e.

Definition cbind {A B} (c : completion A) (k : A -> completion B) : completion B :=
  match c with
  | Normal a => k a
  | Throw e => Throw e
  end.

Fixpoint cmap {A B} (f : A -> completion B) (l : list A) : completion (list B) :=
  match l with
  | [] => Normal []
  | x :: r =>
      cbind (f x) (fun y => cbind (cmap f r) (fun ys => Normal (y :: ys)))
  end.

Fixpoint cfilter {A} (f : A -> completion bool) (l : list A) : completion (list A) :=
  match l with
  | [] => Normal []
  | x :: r =>
      cbind (f x) (fun b =>
      cbind (cfilter f r) (fun ys => Normal (if b then x :: ys else ys)))
  end.

(** ToBoolean *)
Definition truthy (v : value) : bool :=
  match v with
  | VUndefined | VNull => false
  | VBool b => b
  | VNum n =>
      match n with
      | S754_zero _ | S754_nan => false
      | _ => true
      end
  | VStr s => negb (s =? "")
  | VArr _ | VObj _ => true
  end.

(** [a || b] and [a ?? b] on values already evaluated (the right operands
    in the source have no effects) *)
Definition or_else (a b : value) : value := if truthy a then a else b.

Definition nullish (v : value) : bool :=
  match v with
  | VUndefined | VNull => true
  | _ => false
  end.

Definition coalesce (a b : value) : value := if nullish a then b else a.

(** [a === b]. Exact on primitives. Two objects or two arrays are equal
    only when they are one and the same reference, which a value of this
    model does not carry; the model answers [false] for them. That is
    exact for two values read from different places of a document, and
    not for an object compared with itself (an id that is an object,
    passed back by Delete, Edit or Save). The ids of the component are
    strings ([Location] typedef), and every statement that rests on this
    comparison is made for string ids. *)
Definition strict_eq (a b : value) : bool :=
  match a, b with
  | VUndefined, VUndefined => true
  | VNull, VNull => true
  | VBool x, VBool y => Bool.eqb x y
  | VNum x, VNum y => SFeqb x y
  | VStr x, VStr y => x =? y
  | _, _ => false
  end.

(** [Object.is] on primitives (SameValue): as [===] but NaN is itself
    and the two zeros differ. *)
Definition same_number (x y : number) : bool :=
  match x, y with
  | S754_nan, S754_nan => true
  | S754_zero s, S754_zero t => Bool.eqb s t
  | S754_zero _, _ | _, S754_zero _ => false
  | _, _ => SFeqb x y
  end.

Definition Object_is (a b : value) : bool :=
  match a, b with
  | VNum x, VNum y => same_number x y
  | _, _ => strict_eq a b
  end.

(** Own properties: lookup, and definition of a property (the position
    of an existing key is kept, a new key goes last). *)
Fixpoint lookup (ps : props_of) (k : string) : value :=
  match ps with
  | [] => VUndefined
  | (k', v) :: r => if k' =? k then v else lookup r k
  end.

Fixpoint has (ps : props_of) (k : string) : bool :=
  match ps with
  | [] => false
  | (k', _) :: r => (k' =? k) || has r k
  end.

Fixpoint define (ps : props_of) (k : string) (v : value) : props_of :=
  match ps with
  | [] => [(k, v)]
  | (k', v') :: r =>
      if k' =? k then (k, v) :: r else (k', v') :: define r k v
  end.

(** The property names the component reads ([id], [lat], [city],
    [locations], ...) are never an array index, [length] or a member of
    a prototype, so only objects have them. *)
Definition own (v : value) (k : string) : value :=
  match v with
  | VObj ps => lookup ps k
  | _ => VUndefined
  end.

(** [v.k] *)
Definition member (v : value) (k : string) : completion value :=
  match v with
  | VUndefined | VNull => Throw (TypeError "Cannot read properties of null or undefined")
  | _ => Normal (own v k)
  end.

(** [v?.k] *)
Definition opt_member (v : value) (k : string) : value :=
  if nullish v then VUndefined else own v k.

Definition index_key (i : nat) : string :=
  NilEmpty.string_of_uint (Nat.to_uint i).

Fixpoint indexed {A} (f : A -> value) (i : nat) (l : list A) : props_of :=
  match l with
  | [] => []
  | x :: r => (index_key i, f x) :: indexed f (S i) r
  end.

(** The own enumerable properties copied by [{...v}] *)
Definition spread (v : value) : props_of :=
  match v with
  | VObj ps => ps
  | VArr l => indexed (fun x => x) 0 l
  | VStr s => indexed (fun c => VStr (String c "")) 0 (list_ascii_of_string s)
  | _ => []
  end.

(** White space and line terminators of ECMAScript among the code units
    below 256: TAB, LF, VT, FF, CR, SP and NBSP. *)
Definition is_white (c : ascii) : bool :=
  let n := nat_of_ascii c in
  ((9 <=? n) && (n <=? 13) || (n =? 32) || (n =? 160))%nat.

Fixpoint trimStart (s : string) : string :=
  match s with
  | EmptyString => EmptyString
  | String c r => if is_white c then trimStart r else s
  end.

Fixpoint trimEnd (s : string) : string :=
  match s with
  | EmptyString => EmptyString
  | String c r =>
      match trimEnd r with
      | EmptyString => if is_white c then EmptyString else String c EmptyString
      | r' => String c r'
      end
  end.

(** [String.prototype.trim] *)
Definition trim (s : string) : string := trimEnd (trimStart s).

(** [v?.trim()] *)
Definition opt_trim (v : value) : completion value :=
  match v with
  | VUndefined | VNull => Normal VUndefined
  | VStr s => Normal (VStr (trim s))
  | _ => Throw (TypeError "trim is not a function")
  end.

End JS.

(** ** JSON texts *)

Module JSON.
Import JS.

Unset Elimination Schemes.
Inductive json : Type :=
| JNull
| JBool (b : bool)
| JNum (n : number)
| JStr (s : string)
| JArr (elems : list json)
| JObj (members : list (string * json)).
Set Elimination Schemes.

(** A character text, by what [JSON.parse] makes of it. [JNum n] stands
    for a number token that denotes the double [n] (a token such as
    [1e999] denotes an infinity, [-0] the negative zero). *)
Inductive text : Type :=
| Empty
| Malformed
| Doc (j : json).

(** SerializeJSONProperty: [None] is the [undefined] the algorithm
    returns for a value that has no JSON form. A number that is not
    finite is written [null], a zero is written [0] whatever its sign;
    in an array a value without JSON form is written [null], in an
    object its property is left out. *)
Fixpoint serialize (v : value) : option json :=
  match v with
  | VUndefined => None
  | VNull => Some JNull
  | VBool b => Some (JBool b)
  | VNum n =>
      Some match n with
           | S754_zero _ => JNum (S754_zero false)
           | S754_finite _ _ _ => JNum n
           | S754_infinity _ | S754_nan => JNull
           end
  | VStr s => Some (JStr s)
  | VArr l =>
      Some (JArr (map (fun e => match serialize e with
                                | Some j => j
                                | None => JNull
                                end) l))
  | VObj ps =>
      Some (JObj (flat_map (fun p => match serialize (snd p) with
                                     | Some j => [(fst p, j)]
                                     | None => []
                                     end) ps))
  end.

(** [JSON.stringify(v)] and [JSON.stringify(v, null, 2)]: the two differ
    in white space only. *)
Definition stringify (v : value) : option text := option_map Doc (serialize v).

(** The value a document denotes; a repeated member name keeps its first
    position and its last value. The members are kept in the order of
    the document. JavaScript lists the names that are array indices
    ([0], [2], [10]) first, in ascending order: for an object with such
    names the order of the properties differs, what each name reads does
    not. *)
Fixpoint revive (j : json) : value :=
  match j with
  | JNull => VNull
  | JBool b => VBool b
  | JNum n => VNum n
  | JStr s => VStr s
  | JArr l => VArr (map revive l)
  | JObj ms =>
      VObj (fold_left (fun acc m => define acc (fst m) (revive (snd m))) ms [])
  end.

(** [JSON.parse(t)] *)
Definition parse (t : text) : completion value :=
  match t with
  | Doc j => Normal (revive j)
  | Empty | Malformed => Throw SyntaxError
  end.

(** [String(x)] of what [JSON.stringify] returned *)
Definition text_of (r : option text) : text :=
  match r with
  | Some t => t
  | None => Malformed
  end.

End JSON.

(** ** The component *)

Module App.
Import JS.

Definition STORAGE_KEY : string := "cs465-places-v1".

(** The draft of the editor panel: [{lat, lng, title, notes}] for a new
    place, with [id] when an existing place is edited ([d_id] is
    [VUndefined] when the property is absent). *)
Record Draft : Type := mkDraft {
  d_lat : value;
  d_lng : value;
  d_title : value;
  d_notes : value;
  d_id : value
}.

(** The state cells of [App], the browser objects it talks to, and
    whether the dependencies of the persist effect changed since the
    last commit. *)
Record world : Type := mkWorld {
  locations : list value;
  isCollecting : value;
  showList : value;
  draft : option Draft;
  loadingMeta : bool;
  localStorage : list (string * JSON.text);
  alerts : list string;
  console : list string;
  downloads : list (string * JSON.text);
  persist_due : bool
}.

(** *** The monad of handlers and effects *)

Definition M (A : Type) : Type := world -> completion A * world.

Definition ret {A} (a : A) : M A := fun w => (Normal a, w).

Definition bind {A B} (m : M A) (k : A -> M B) : M B :=
  fun w =>
    match m w with
    | (Normal a, w') => k a w'
    | (Throw e, w') => (Throw e, w')
    end.

Definition lift {A} (c : completion A) : M A := fun w => (c, w).

Definition try_catch {A} (body : M A) (handler : error -> M A) : M A :=
  fun w =>
    match body w with
    | (Normal a, w') => (Normal a, w')
    | (Throw e, w') => handler e w'
    end.

Definition try_finally {A} (body : M A) (fin : M unit) : M A :=
  fun w =>
    let (r, w') := body w in
    match fin w' with
    | (Normal _, w'') => (r, w'')
    | (Throw e, w'') => (Throw e, w'')
    end.

Declare Scope js_scope.
Delimit Scope js_scope with js.
Notation "x <- m ;; k" := (bind m (fun x => k))
  (at level 61, m at next level, right associativity) : js_scope.
Notation "m ;; k" := (bind m (fun _ => k))
  (at level 61, right associativity) : js_scope.
Local Open Scope js_scope.

(** *** State setters

    React compares the new value of a cell with the old one by
    [Object.is] and re-runs an effect when one of its dependencies
    changed. Every array the component passes to [setLocations] is a new
    one (a literal, the result of [filter], [map] or [JSON.parse]). *)

Definition setLocations (l : list value) : M unit := fun w =>
  let 'mkWorld _ c s d lm ls al co dl _ := w in
  (Normal tt, mkWorld l c s d lm ls al co dl true).

Definition setIsCollecting (v : value) : M unit := fun w =>
  let 'mkWorld l c s d lm ls al co dl due := w in
  (Normal tt, mkWorld l v s d lm ls al co dl (due || negb (Object_is c v))).

Definition setShowList (v : value) : M unit := fun w =>
  let 'mkWorld l c s d lm ls al co dl due := w in
  (Normal tt, mkWorld l c v d lm ls al co dl (due || negb (Object_is s v))).

Definition setDraft (d : option Draft) : M unit := fun w =>
  let 'mkWorld l c s _ lm ls al co dl due := w in
  (Normal tt, mkWorld l c s d lm ls al co dl due).

Definition setLoadingMeta (b : bool) : M unit := fun w =>
  let 'mkWorld l c s d _ ls al co dl due := w in
  (Normal tt, mkWorld l c s d b ls al co dl due).

(** [setLocations((prev) => ...)]: an updater that throws takes the
    render down with it. *)
Definition updateLocations (f : list value -> completion (list value)) : M unit :=
  fun w => bind (lift (f (locations w))) setLocations w.

(** *** Browser objects *)

Fixpoint getItem (ls : list (string * JSON.text)) (k : string) : option JSON.text :=
  match ls with
  | [] => None
  | (k', t) :: r => if k' =? k then Some t else getItem r k
  end.

Fixpoint removeItem (ls : list (string * JSON.text)) (k : string) : list (string * JSON.text) :=
  match ls with
  | [] => []
  | (k', t) :: r => if k' =? k then removeItem r k else (k', t) :: removeItem r k
  end.

Definition setItem (ls : list (string * JSON.text)) (k : string) (t : JSON.text)
  : list (string * JSON.text) :=
  (k, t) :: removeItem ls k.

Definition with_storage (f : list (string * JSON.text) -> list (string * JSON.text)) : M unit :=
  fun w =>
    let 'mkWorld l c s d lm ls al co dl due := w in
    (Normal tt, mkWorld l c s d lm (f ls) al co dl due).

Definition alert (msg : string) : M unit := fun w =>
  let 'mkWorld l c s d lm ls al co dl due := w in
  (Normal tt, mkWorld l c s d lm ls (al ++ [msg]) co dl due).

Definition console_warn (msg : string) : M unit := fun w =>
  let 'mkWorld l c s d lm ls al co dl due := w in
  (Normal tt, mkWorld l c s d lm ls al (co ++ [msg]) dl due).

Definition download (name : string) (t : JSON.text) : M unit := fun w =>
  let 'mkWorld l c s d lm ls al co dl due := w in
  (Normal tt, mkWorld l c s d lm ls al co (dl ++ [(name, t)]) due).

(** A text is truthy unless it is empty. *)
Definition nonempty (t : JSON.text) : bool :=
  match t with
  | JSON.Empty => false
  | _ => true
  end.

(** *** Effects *)

(** Load from localStorage on first render (lines 28-40) *)
Definition load_effect : M unit := fun w =>
  match getItem (localStorage w) STORAGE_KEY with
  | Some raw =>
      if nonempty raw then
        try_catch
          (parsed <- lift (JSON.parse raw) ;;
           match opt_member parsed "locations" with
           | VArr _ =>
               l <- lift (member parsed "locations") ;;
               match l with
               | VArr items => setLocations items
               | _ => ret tt
               end ;;
               c <- lift (member parsed "isCollecting") ;;
               setIsCollecting (coalesce c (VBool false)) ;;
               s <- lift (member parsed "showList") ;;
               setShowList (coalesce s (VBool false))
           | _ => ret tt
           end)
          (fun _ => ret tt) w
      else (Normal tt, w)
  | None => (Normal tt, w)
  end.

(** Persist to localStorage (lines 43-48), on the values of the render
    the effect belongs to. *)
Definition persist_effect (locs : list value) (collecting shown : value) : M unit :=
  with_storage (fun ls =>
    setItem ls STORAGE_KEY
      (JSON.text_of (JSON.stringify
         (VObj [("locations", VArr locs);
                ("isCollecting", collecting);
                ("showList", shown)])))).

Definition clear_due : M unit := fun w =>
  let 'mkWorld l c s d lm ls al co dl _ := w in
  (Normal tt, mkWorld l c s d lm ls al co dl false).

(** The commit that follows a handler or an effect: the persist effect
    runs again when one of [locations], [isCollecting], [showList]
    changed. *)
Definition commit : M unit := fun w =>
  if persist_due w
  then (persist_effect (locations w) (isCollecting w) (showList w) ;; clear_due) w
  else (Normal tt, w).

Definition initial (ls : list (string * JSON.text)) : world :=
  mkWorld [] (VBool true) (VBool true) None false ls [] [] [] false.

(** First render: both effects run, in the order they are declared, on
    the values of that render (the defaults of [useState]); the cells
    set by the load effect show in the next render. The render itself
    (the JSX and the map library) is not part of the model: when the
    list that was loaded cannot be drawn the program stops at that
    render and the second pass of the persist effect does not run. What
    is said of the storage after startup is said of lists that can be
    drawn. *)
Definition mount (ls : list (string * JSON.text)) : completion unit * world :=
  (load_effect ;;
   persist_effect [] (VBool true) (VBool true) ;;
   commit) (initial ls).

(** *** Reverse geocoding *)

(** What the lookup service does with one request: [fetch] rejects, or a
    response arrives whose body [res.json()] has to parse. *)
Inductive response : Type :=
| Rejects
| Responds (body : JSON.text).

Definition fetch_ (r : response) : M JSON.text :=
  match r with
  | Rejects => lift (Throw NetworkError)
  | Responds body => ret body
  end.

Section Handlers.

(** The service, as a function of the coordinates put in the URL. *)
Variable fetch : value -> value -> response.

(** lines 63-85 *)
Definition enrichWithReverseGeocode (lat lng : value) : M value :=
  try_finally
    (try_catch
       (setLoadingMeta true ;;
        res <- fetch_ (fetch lat lng) ;;
        data <- lift (JSON.parse res) ;;
        let address := opt_member data "address" in
        let city :=
          or_else (or_else (or_else (opt_member address "city")
                                    (opt_member address "town"))
                           (opt_member address "village"))
                  (opt_member address "county") in
        let country := opt_member address "country" in
        ret (VObj [("displayName", opt_member data "display_name");
                   ("city", city);
                   ("country", country)]))
       (fun _ =>
          console_warn "Reverse geocode failed" ;;
          ret (VObj [])))
    (setLoadingMeta false).

(** *** Handlers *)

(** [MapClickCatcher], lines 54-58 *)
Definition click (lat lng : value) : M unit := fun w =>
  if negb (truthy (isCollecting w)) then (Normal tt, w)
  else setDraft (Some (mkDraft lat lng (VStr "") (VStr "") VUndefined)) w.

(** The object literal of lines 90-98 *)
Definition newLocation (d : Draft) (meta : value) (uuid : string) (now : number)
  : completion value :=
  cbind (opt_trim (d_title d)) (fun t =>
  cbind (if truthy t then Normal t
         else cbind (member meta "city") (fun city =>
              Normal (or_else city (VStr "Untitled place")))) (fun title =>
  cbind (opt_trim (d_notes d)) (fun n =>
  Normal (VObj [("id", VStr uuid);
                ("lat", d_lat d);
                ("lng", d_lng d);
                ("title", title);
                ("notes", or_else n (VStr ""));
                ("createdAt", VNum now);
                ("meta", meta)])))).

(** lines 87-101; [uuid] is what [crypto.randomUUID()] returns, [now]
    what [Date.now()] returns *)
Definition addDraftToLocations (uuid : string) (now : number) : M unit := fun w =>
  match draft w with
  | None => (Normal tt, w)
  | Some d =>
      (meta <- enrichWithReverseGeocode (d_lat d) (d_lng d) ;;
       newLoc <- lift (newLocation d meta uuid now) ;;
       updateLocations (fun prev => Normal (newLoc :: prev)) ;;
       setDraft None) w
  end.

(** The updater of line 104 *)
Definition delete_updater (id : value) (prev : list value) : completion (list value) :=
  cfilter (fun l => cbind (member l "id") (fun i => Normal (negb (strict_eq i id)))) prev.

Definition deleteLocation (id : value) : M unit :=
  updateLocations (delete_updater id).

(** [locations.find((l) => l.id === id)] *)
Fixpoint find_by_id (id : value) (l : list value) : completion (option value) :=
  match l with
  | [] => Normal None
  | x :: r =>
      cbind (member x "id") (fun i =>
      if strict_eq i id then Normal (Some x) else find_by_id id r)
  end.

(** lines 107-111 *)
Definition startEdit (id : value) : M unit := fun w =>
  (found <- lift (find_by_id id (locations w)) ;;
   match found with
   | None => ret tt
   | Some loc =>
       if negb (truthy loc) then ret tt
       else
         setDraft (Some (mkDraft (own loc "lat") (own loc "lng")
                                 (own loc "title") (own loc "notes") (own loc "id")))
   end) w.

(** [{ ...l, lat: draft.lat, lng: draft.lng, title: draft.title,
       notes: draft.notes, meta }] *)
Definition overwrite (l : value) (d : Draft) (meta : value) : value :=
  VObj (define (define (define (define (define (spread l)
          "lat" (d_lat d)) "lng" (d_lng d)) "title" (d_title d))
          "notes" (d_notes d)) "meta" meta).

(** The updater of lines 117-121 *)
Definition save_updater (d : Draft) (meta : value) (prev : list value)
  : completion (list value) :=
  cmap (fun l => cbind (member l "id") (fun i =>
          Normal (if strict_eq i (d_id d) then overwrite l d meta else l))) prev.

(** lines 113-124 *)
Definition saveEdit : M unit := fun w =>
  match draft w with
  | None => (Normal tt, w)
  | Some d =>
      if negb (truthy (d_id d)) then (Normal tt, w)
      else
        (meta <- enrichWithReverseGeocode (d_lat d) (d_lng d) ;;
         updateLocations (save_updater d meta) ;;
         setDraft None) w
  end.

(** lines 126-129 *)
Definition handleDone : M unit :=
  setIsCollecting (VBool false) ;;
  setShowList (VBool false).

(** lines 131-138; [confirmed] is the answer to the [confirm] dialog *)
Definition handleReset (confirmed : bool) : M unit :=
  if negb confirmed then ret tt
  else
    setLocations [] ;;
    setIsCollecting (VBool true) ;;
    setShowList (VBool true) ;;
    setDraft None ;;
    with_storage (fun ls => removeItem ls STORAGE_KEY).

(** lines 140-148 *)
Definition exported (locs : list value) : JSON.text :=
  JSON.text_of (JSON.stringify (VArr locs)).

Definition downloadJSON : M unit := fun w =>
  download "places.json" (exported (locations w)) w.

(** lines 150-169; [file] is the text of the chosen file, if one was
    chosen *)
Definition onUploadFile (file : option JSON.text) : M unit :=
  match file with
  | None => ret tt
  | Some result =>
      try_catch
        (parsed <- lift (JSON.parse result) ;;
         match parsed with
         | VArr items =>
             setLocations items ;;
             setIsCollecting (VBool false) ;;
             setShowList (VBool false)
         | _ => alert "Invalid file format."
         end)
        (fun _ => alert "Could not parse JSON.")
  end.

(** [onClick={() => setShowList((s) => !s)}] *)
Definition toggleList : M unit := fun w =>
  setShowList (VBool (negb (truthy (showList w)))) w.

(** [onChange] of the two inputs and the Cancel button *)
Definition editTitle (s : string) : M unit := fun w =>
  match draft w with
  | Some d => setDraft (Some (mkDraft (d_lat d) (d_lng d) (VStr s) (d_notes d) (d_id d))) w
  | None => (Normal tt, w)
  end.

Definition editNotes (s : string) : M unit := fun w =>
  match draft w with
  | Some d => setDraft (Some (mkDraft (d_lat d) (d_lng d) (d_title d) (VStr s) (d_id d))) w
  | None => (Normal tt, w)
  end.

Definition cancel : M unit := setDraft None.

(** *** Events

    What the user can do, with what the environment answers. *)
Inductive event : Type :=
| Click (lat lng : value)
| EditTitle (s : string)
| EditNotes (s : string)
| Cancel
| Add (uuid : string) (now : number)
| Delete (id : value)
| StartEdit (id : value)
| Save
| Done
| ToggleList
| Reset (confirmed : bool)
| Export
| Upload (file : option JSON.text).

Definition handler (ev : event) : M unit :=
  match ev with
  | Click lat lng => click lat lng
  | EditTitle s => editTitle s
  | EditNotes s => editNotes s
  | Cancel => cancel
  | Add uuid now => addDraftToLocations uuid now
  | Delete id => deleteLocation id
  | StartEdit id => startEdit id
  | Save => saveEdit
  | Done => handleDone
  | ToggleList => toggleList
  | Reset confirmed => handleReset confirmed
  | Export => downloadJSON
  | Upload file => onUploadFile file
  end.

(** One event: the handler runs to its end, then React commits. A
    handler that throws leaves what it had set. The render between the
    handler and the effects (the JSX and the map library) is not part of
    the model: when it throws, on a list that cannot be drawn, the
    program stops there and the persist effect does not run. What is
    said of the storage after an event that changes the cells is said of
    states that can be drawn. *)
Definition dispatch (ev : event) : M unit := fun w =>
  let (r, w') := handler ev w in
  match commit w' with
  | (_, w'') => (r, w'')
  end.

End Handlers.

End App.

(** ** Notions of the design contract *)

Module Contract.
Import JS App.

(** Induction on values, through the elements of arrays and the
    properties of objects. *)
Definition value_ind (P : value -> Prop)
  (Hundef : P VUndefined) (Hnull : P VNull)
  (Hbool : forall b, P (VBool b)) (Hnum : forall n, P (VNum n))
  (Hstr : forall s, P (VStr s))
  (Harr : forall l, Forall P l -> P (VArr l))
  (Hobj : forall ps, Forall (fun p => P (snd p)) ps -> P (VObj ps))
  : forall v, P v :=
  fix go (v : value) : P v :=
    match v with
    | VUndefined => Hundef
    | VNull => Hnull
    | VBool b => Hbool b
    | VNum n => Hnum n
    | VStr s => Hstr s
    | VArr l =>
        Harr l ((fix all (l : list value) : Forall P l :=
                   match l with
                   | [] => Forall_nil _
                   | x :: r => Forall_cons _ (go x) (all r)
                   end) l)
    | VObj ps =>
        Hobj ps ((fix all (ps : list (string * value)) : Forall (fun p => P (snd p)) ps :=
                    match ps with
                    | [] => Forall_nil _
                    | p :: r => Forall_cons _ (go (snd p)) (all r)
                    end) ps)
    end.

(** *** Ids of the place list *)

Definition id_of (l : value) : value := own l "id".

Definition ids (locs : list value) : list value := map id_of locs.

(** A place made by the component: an object whose id is a string *)
Definition is_place (l : value) : Prop :=
  exists ps u, l = VObj ps /\ lookup ps "id" = VStr u.

(** The place lists that add, update and remove can build from the
    empty list, each add drawing an id that no place of the list has. *)
Inductive reachable : list value -> Prop :=
| reach_empty : reachable []
| reach_add prev d meta uuid now newLoc :
    reachable prev ->
    newLocation d meta uuid now = Normal newLoc ->
    ~ In (VStr uuid) (ids prev) ->
    reachable (newLoc :: prev)
| reach_update prev d meta next :
    reachable prev ->
    save_updater d meta prev = Normal next ->
    reachable next
| reach_remove prev id next :
    reachable prev ->
    delete_updater id prev = Normal next ->
    reachable next.

(** The same through the events of the component: any event but an
    import, an add drawing a fresh id. *)
Definition admissible (ev : event) (w : world) : Prop :=
  match ev with
  | Add uuid _ => ~ In (VStr uuid) (ids (locations w))
  | Upload _ => False
  | _ => True
  end.

Inductive run (fetch : value -> value -> response) : world -> world -> Prop :=
| run_here w : run fetch w w
| run_step w ev w2 :
    admissible ev w ->
    run fetch (snd (dispatch fetch ev w)) w2 ->
    run fetch w w2.

(** *** Equivalent values

    Two values are equivalent when no read tells them apart: equal
    primitives (numbers as [===] has them), arrays of equivalent
    elements, objects whose every property reads equivalent values, a
    property that is absent reading [undefined]. *)
Unset Elimination Schemes.
Inductive equiv : value -> value -> Prop :=
| equiv_undefined : equiv VUndefined VUndefined
| equiv_null : equiv VNull VNull
| equiv_bool b : equiv (VBool b) (VBool b)
| equiv_num n m : SFeqb n m = true -> equiv (VNum n) (VNum m)
| equiv_str s : equiv (VStr s) (VStr s)
| equiv_arr l1 l2 : Forall2 equiv l1 l2 -> equiv (VArr l1) (VArr l2)
| equiv_obj p1 p2 :
    (forall k, equiv (lookup p1 k) (lookup p2 k)) ->
    equiv (VObj p1) (VObj p2).
Set Elimination Schemes.

Fixpoint distinct (ks : list string) : bool :=
  match ks with
  | [] => true
  | k :: r => negb (existsb (String.eqb k) r) && distinct r
  end.

Definition is_undefined (v : value) : bool :=
  match v with
  | VUndefined => true
  | _ => false
  end.

(** The values JSON can carry: every number finite, no array with an
    [undefined] element; an object has one property per name. *)
Fixpoint storable (v : value) : bool :=
  match v with
  | VNum n => isFinite n
  | VArr l => forallb (fun e => negb (is_undefined e) && storable e) l
  | VObj ps => distinct (map fst ps) && forallb (fun p => storable (snd p)) ps
  | _ => true
  end.

(** *** Serialization, piece by piece

    How an array writes an element, how an object writes a property, how
    a member is read back, and the properties that a list of members
    with distinct names reads back to. *)

Definition element (e : value) : JSON.json :=
  match JSON.serialize e with
  | Some j => j
  | None => JSON.JNull
  end.

Definition member_of (p : string * value) : list (string * JSON.json) :=
  match JSON.serialize (snd p) with
  | Some j => [(fst p, j)]
  | None => []
  end.

Definition read (acc : props_of) (m : string * JSON.json) : props_of :=
  define acc (fst m) (JSON.revive (snd m)).

Definition revived (ms : list (string * JSON.json)) : props_of :=
  map (fun m => (fst m, JSON.revive (snd m))) ms.

(** What a storable value is written as reads back equivalent; only
    [undefined] is not written at all. *)
Definition reads_back (v : value) : Prop :=
  storable v = true ->
  match JSON.serialize v with
  | Some j => equiv v (JSON.revive j)
  | None => v = VUndefined
  end.

(** *** Titles *)

(** Empty or made of white space only *)
Definition blank (s : string) : bool :=
  forallb is_white (list_ascii_of_string s).

(** *** City of an address *)

Definition city_keys : list string := ["city"; "town"; "village"; "county"].

(** The first of the four fields that the address has *)
Definition first_present (address : value) : value :=
  match address with
  | VObj ps =>
      match find (has ps) city_keys with
      | Some k => lookup ps k
      | None => VUndefined
      end
  | _ => VUndefined
  end.

(** The first of city, town, village whose value is truthy; failing
    them, what county holds *)
Definition first_truthy (address : value) : value :=
  match find (fun k => truthy (own address k)) ["city"; "town"; "village"] with
  | Some k => own address k
  | None => own address "county"
  end.

(** *** The lookup, case by case *)

(** The world after a lookup: only [loadingMeta] and the console can
    differ. *)
Definition after_lookup (w : world) (msgs : list string) : world :=
  let 'mkWorld l c s d _ ls al co dl due := w in
  mkWorld l c s d false ls al (co ++ msgs) dl due.

(** What the lookup resolves to, for each thing the service can do *)
Definition enrichment (r : response) : value :=
  match r with
  | Responds (JSON.Doc j) =>
      let data := JSON.revive j in
      let address := opt_member data "address" in
      VObj [("displayName", opt_member data "display_name");
            ("city",
             or_else (or_else (or_else (opt_member address "city")
                                       (opt_member address "town"))
                              (opt_member address "village"))
                     (opt_member address "county"));
            ("country", opt_member address "country")]
  | _ => VObj []
  end.

Definition warnings (r : response) : list string :=
  match r with
  | Responds (JSON.Doc _) => []
  | _ => ["Reverse geocode failed"]
  end.

(** *** The persisted document of the defaults *)

Definition default_document : JSON.text :=
  JSON.Doc (JSON.JObj [("locations", JSON.JArr []);
                       ("isCollecting", JSON.JBool true);
                       ("showList", JSON.JBool true)]).

(** *** Sample data

    The example of the contract: a click at (40.0, -74.0), no title
    typed, and a service that answers with Jersey City. *)

Definition jersey_city : JSON.text :=
  JSON.Doc (JSON.JObj
    [("display_name", JSON.JStr "Jersey City, Hudson County, New Jersey, USA");
     ("address", JSON.JObj [("city", JSON.JStr "Jersey City");
                            ("country", JSON.JStr "USA")])]).

Definition service : value -> value -> response :=
  fun _ _ => Responds jersey_city.

(** A response whose city is the empty string *)
Definition springfield : JSON.text :=
  JSON.Doc (JSON.JObj
    [("address", JSON.JObj [("city", JSON.JStr "");
                            ("town", JSON.JStr "Springfield")])]).

Definition clicked : Draft :=
  mkDraft (VNum (of_Z 40)) (VNum (of_Z (-74))) (VStr "") (VStr "") VUndefined.

Definition editing (id : string) : Draft :=
  mkDraft (VNum (of_Z 41)) (VNum (of_Z (-73))) (VStr "Moved") (VStr "") (VStr id).

Definition with_draft (locs : list value) (d : Draft) : world :=
  mkWorld locs (VBool true) (VBool true) (Some d) false [] [] [] [] false.

Definition place (uuid title : string) : value :=
  VObj [("id", VStr uuid); ("lat", VNum (of_Z 40)); ("lng", VNum (of_Z (-74)));
        ("title", VStr title); ("notes", VStr "");
        ("createdAt", VNum (of_Z 1700000000000));
        ("meta", VObj [("city", VStr "Jersey City"); ("country", VStr "USA")])].

(** The text [[{"id": "a", "lat": 1e999, "lng": 0}]]: the number token
    of [lat] is beyond the range of binary64 and denotes an infinity. *)
Definition overflowing_file : JSON.text :=
  JSON.Doc (JSON.JArr
    [JSON.JObj [("id", JSON.JStr "a");
                ("lat", JSON.JNum (S754_infinity false));
                ("lng", JSON.JNum (S754_zero false))]]).

(** *** Storage in step with the cells *)

(** The text the persist effect writes for given cells *)
Definition persisted (locs : list value) (collecting shown : value) : JSON.text :=
  JSON.text_of (JSON.stringify
    (VObj [("locations", VArr locs);
           ("isCollecting", collecting);
           ("showList", shown)])).

(** No write is pending and the key holds the text of the three cells. *)
Definition synced (w : world) : Prop :=
  persist_due w = false /\
  getItem (localStorage w) STORAGE_KEY
    = Some (persisted (locations w) (isCollecting w) (showList w)).

(** *** Runs of events *)

Inductive trace (fetch : value -> value -> response) (allowed : event -> Prop)
  : world -> world -> Prop :=
| trace_here w : trace fetch allowed w w
| trace_step w ev w2 :
    allowed ev ->
    trace fetch allowed (snd (dispatch fetch ev w)) w2 ->
    trace fetch allowed w w2.

(** The events whose handlers call none of [setLocations],
    [setIsCollecting], [setShowList] *)
Definition local (ev : event) : bool :=
  match ev with
  | Click _ _ | EditTitle _ | EditNotes _ | Cancel | StartEdit _ | Export => true
  | _ => false
  end.

Definition no_nullish (l : list value) : Prop :=
  Forall (fun x => nullish x = false) l.

(** [l.id === id] *)
Definition has_id (id : value) (l : value) : bool := strict_eq (id_of l) id.

(** *** Documents as the serializer writes them *)

Definition json_ind (P : JSON.json -> Prop)
  (Hnull : P JSON.JNull) (Hbool : forall b, P (JSON.JBool b))
  (Hnum : forall n, P (JSON.JNum n)) (Hstr : forall s, P (JSON.JStr s))
  (Harr : forall l, Forall P l -> P (JSON.JArr l))
  (Hobj : forall ms, Forall (fun m => P (snd m)) ms -> P (JSON.JObj ms))
  : forall j, P j :=
  fix go (j : JSON.json) : P j :=
    match j with
    | JSON.JNull => Hnull
    | JSON.JBool b => Hbool b
    | JSON.JNum n => Hnum n
    | JSON.JStr s => Hstr s
    | JSON.JArr l =>
        Harr l ((fix all (l : list JSON.json) : Forall P l :=
                   match l with
                   | [] => Forall_nil _
                   | x :: r => Forall_cons _ (go x) (all r)
                   end) l)
    | JSON.JObj ms =>
        Hobj ms ((fix all (ms : list (string * JSON.json))
                    : Forall (fun m => P (snd m)) ms :=
                    match ms with
                    | [] => Forall_nil _
                    | m :: r => Forall_cons _ (go (snd m)) (all r)
                    end) ms)
    end.

(** Every object, at any depth, has one property per name. *)
Fixpoint well_formed (v : value) : bool :=
  match v with
  | VArr l => forallb well_formed l
  | VObj ps => distinct (map fst ps) && forallb (fun p => well_formed (snd p)) ps
  | _ => true
  end.

(** Finite numbers, no negative zero, one member per name *)
Fixpoint canonical (j : JSON.json) : bool :=
  match j with
  | JSON.JNum n =>
      match n with
      | S754_zero false | S754_finite _ _ _ => true
      | _ => false
      end
  | JSON.JArr l => forallb canonical l
  | JSON.JObj ms =>
      distinct (map fst ms) && forallb (fun m => canonical (snd m)) ms
  | _ => true
  end.

(** The place list that the import of the export of [locs] sets *)
Definition trip (locs : list value) : list value :=
  map JSON.revive (map element locs).

(** *** A title, trimmed

    What it is for [t'] to be [t] without the white space at its two
    ends, said without the function that trims: [t] is [t'] between two
    runs of white space, and [t'] neither starts nor ends with white
    space. *)

Fixpoint last_char (s : string) : option ascii :=
  match s with
  | EmptyString => None
  | String c EmptyString => Some c
  | String _ r => last_char r
  end.

Definition starts_white (s : string) : bool :=
  match s with
  | String c _ => is_white c
  | EmptyString => false
  end.

Definition ends_white (s : string) : bool :=
  match last_char s with
  | Some c => is_white c
  | None => false
  end.

Definition trimmed_of (t t' : string) : Prop :=
  exists pre post,
    t = (pre ++ t' ++ post)%string /\
    blank pre = true /\
    blank post = true /\
    starts_white t' = false /\
    ends_white t' = false.

(** The fields of a draft that [?.trim()] accepts: a string, [null] or
    [undefined]; on anything else the call throws and nothing is
    committed. *)
Definition trimmable (v : value) : bool :=
  match v with
  | VStr _ | VUndefined | VNull => true
  | _ => false
  end.

(** No title: a blank string, or no string at all *)
Definition no_title (v : value) : bool :=
  match v with
  | VStr t => blank t
  | VUndefined | VNull => true
  | _ => false
  end.

(** *** States that can be drawn

    The places as the typedef of [Location] has them (line 16), with
    coordinates that are numbers other than NaN, and a draft as line 24
    has it. The JSX and the map library draw such a state. *)

Definition is_string (v : value) : bool :=
  match v with
  | VStr _ => true
  | _ => false
  end.

Definition is_number (v : value) : bool :=
  match v with
  | VNum _ => true
  | _ => false
  end.

Definition is_coordinate (v : value) : bool :=
  match v with
  | VNum S754_nan => false
  | VNum _ => true
  | _ => false
  end.

(** [displayName?: string] and the like *)
Definition is_optional_string (v : value) : bool :=
  match v with
  | VStr _ | VUndefined => true
  | _ => false
  end.

Definition is_meta (v : value) : bool :=
  match v with
  | VUndefined => true
  | VObj ps =>
      is_optional_string (lookup ps "displayName") &&
      is_optional_string (lookup ps "city") &&
      is_optional_string (lookup ps "country")
  | _ => false
  end.

Definition is_Location (l : value) : bool :=
  match l with
  | VObj ps =>
      is_string (lookup ps "id") &&
      is_coordinate (lookup ps "lat") &&
      is_coordinate (lookup ps "lng") &&
      is_string (lookup ps "title") &&
      is_string (lookup ps "notes") &&
      is_number (lookup ps "createdAt") &&
      is_meta (lookup ps "meta")
  | _ => false
  end.

Definition is_Draft (d : Draft) : bool :=
  is_number (d_lat d) && is_number (d_lng d) &&
  is_string (d_title d) && is_string (d_notes d).

Definition drawable (w : world) : bool :=
  forallb is_Location (locations w) &&
  match draft w with
  | Some d => is_Draft d
  | None => true
  end.

(** *** Names that keep their place

    A name made of digits only may be an array index, which JavaScript
    moves to the front of the object; no other name is moved. *)

Definition is_digit (c : ascii) : bool :=
  let n := nat_of_ascii c in ((48 <=? n) && (n <=? 57))%nat.

Definition all_digits (k : string) : bool :=
  negb (k =? "") && forallb is_digit (list_ascii_of_string k).

Fixpoint plain_names (j : JSON.json) : bool :=
  match j with
  | JSON.JArr l => forallb plain_names l
  | JSON.JObj ms =>
      forallb (fun m => negb (all_digits (fst m)) && plain_names (snd m)) ms
  | _ => true
  end.

(** *** More sample data *)

(** Two places kept, collecting off, the key in step *)
Definition kept : world :=
  mkWorld [place "id-1" "Home"; place "id-2" "Work"] (VBool false) (VBool true)
          None false
          [(STORAGE_KEY,
            persisted [place "id-1" "Home"; place "id-2" "Work"]
                      (VBool false) (VBool true))]
          [] [] [] false.

(** The same, the panel open on the first place *)
Definition kept_editing : world :=
  mkWorld [place "id-1" "Home"; place "id-2" "Work"] (VBool false) (VBool true)
          (Some (editing "id-1")) false [] [] [] [] false.

(** A file as the export writes them *)
Definition entry (uuid title : string) : JSON.json :=
  JSON.JObj [("id", JSON.JStr uuid);
             ("lat", JSON.JNum (of_Z 40)); ("lng", JSON.JNum (of_Z (-74)));
             ("title", JSON.JStr title); ("notes", JSON.JStr "");
             ("createdAt", JSON.JNum (of_Z 1700000000000));
             ("meta", JSON.JObj [("city", JSON.JStr "Jersey City");
                                 ("country", JSON.JStr "USA")])].

Definition two_entries : list JSON.json :=
  [entry "id-1" "Home"; entry "id-2" "Work"].

(** A draft with a title between white space and no notes property *)
Definition padded : Draft :=
  mkDraft (VNum (of_Z 40)) (VNum (of_Z (-74))) (VStr "  Pier   ") VUndefined
          VUndefined.

End Contract.

(** ** Facts about values *)

Module JSFacts.
Import JS.

Lemma lookup_define_same ps k v : lookup (define ps k v) k = v.
Proof.
  induction ps as [|[k' v'] r IH]; simpl.
  - now rewrite String.eqb_refl.
  - destruct (k' =? k) eqn:E; simpl.
    + now rewrite String.eqb_refl.
    + now rewrite E.
Qed.

Lemma lookup_define_other ps k v k' :
  k <> k' -> lookup (define ps k v) k' = lookup ps k'.
Proof.
  intros Hne. induction ps as [|[k0 v0] r IH]; simpl.
  - apply String.eqb_neq in Hne. now rewrite Hne.
  - destruct (k0 =? k) eqn:E; simpl.
    + apply String.eqb_eq in E. subst k0.
      apply String.eqb_neq in Hne. now rewrite Hne.
    + now rewrite IH.
Qed.

Lemma has_false_lookup ps k : has ps k = false -> lookup ps k = VUndefined.
Proof.
  induction ps as [|[k' v'] r IH]; simpl; [easy|].
  destruct (k' =? k); simpl; [discriminate | exact IH].
Qed.

Lemma define_fresh ps k v : has ps k = false -> define ps k v = ps ++ [(k, v)].
Proof.
  induction ps as [|[k' v'] r IH]; simpl; [easy|].
  destruct (k' =? k); simpl; [discriminate|].
  intros H. now rewrite IH.
Qed.

Lemma has_app ps qs k : has (ps ++ qs) k = has ps k || has qs k.
Proof.
  induction ps as [|[k' v'] r IH]; simpl; [easy|].
  now rewrite IH, orb_assoc.
Qed.

(** *** [trim] against "made of white space only" *)

Lemma trimEnd_white s :
  forallb is_white (list_ascii_of_string s) = true -> trimEnd s = "".
Proof.
  induction s as [|c r IH]; simpl; [easy|].
  intros H. apply andb_true_iff in H as [Hc Hr].
  now rewrite (IH Hr), Hc.
Qed.

Lemma trimEnd_first_kept c r : is_white c = false -> trimEnd (String c r) <> "".
Proof.
  intros Hc. simpl. destruct (trimEnd r); [rewrite Hc|]; discriminate.
Qed.

Lemma trim_white s :
  forallb is_white (list_ascii_of_string s) = true -> trim s = "".
Proof.
  unfold trim. induction s as [|c r IH]; simpl; [easy|].
  intros H. apply andb_true_iff in H as [Hc Hr].
  rewrite Hc. now apply IH.
Qed.

Lemma trim_not_white s :
  forallb is_white (list_ascii_of_string s) = false -> trim s <> "".
Proof.
  unfold trim. induction s as [|c r IH]; simpl; [discriminate|].
  destruct (is_white c) eqn:Hc; simpl.
  - exact IH.
  - intros _. now apply (trimEnd_first_kept c r).
Qed.

(** *** Numbers *)

Lemma SFeqb_finite_refl n :
  isFinite n = true -> SFeqb n n = true.
Proof.
  destruct n as [s|s| |s m e]; simpl; try discriminate; intros _; [easy|].
  unfold SFeqb, SFcompare.
  rewrite Z.compare_refl, Pos.compare_cont_refl.
  now destruct s.
Qed.

Lemma truthy_nonempty s : s <> "" -> truthy (VStr s) = true.
Proof.
  intros H. simpl. apply String.eqb_neq in H. now rewrite H.
Qed.

End JSFacts.

(** ** The place list: ids stay unique, an edit touches one place *)

Module PlaceList.
Import JS App Contract JSFacts.

Lemma newLocation_shape d meta uuid now newLoc :
  newLocation d meta uuid now = Normal newLoc ->
  exists title notes,
    newLoc = VObj [("id", VStr uuid); ("lat", d_lat d); ("lng", d_lng d);
                   ("title", title); ("notes", notes);
                   ("createdAt", VNum now); ("meta", meta)].
Proof.
  unfold newLocation.
  destruct (opt_trim (d_title d)) as [t|]; simpl; [|discriminate].
  destruct (truthy t); simpl.
  - destruct (opt_trim (d_notes d)) as [n|]; simpl; [|discriminate].
    intros H. injection H as <-. eauto.
  - destruct (member meta "city") as [c|]; simpl; [|discriminate].
    destruct (opt_trim (d_notes d)) as [n|]; simpl; [|discriminate].
    intros H. injection H as <-. eauto.
Qed.

Lemma newLocation_place d meta uuid now newLoc :
  newLocation d meta uuid now = Normal newLoc ->
  is_place newLoc /\ id_of newLoc = VStr uuid.
Proof.
  intros H. apply newLocation_shape in H as (title & notes & ->).
  split; [|reflexivity].
  eexists _, uuid. split; reflexivity.
Qed.

(** What [{...l, lat, lng, title, notes, meta}] reads at each name *)
Lemma overwrite_reads ps d meta :
  own (overwrite (VObj ps) d meta) "lat" = d_lat d /\
  own (overwrite (VObj ps) d meta) "lng" = d_lng d /\
  own (overwrite (VObj ps) d meta) "title" = d_title d /\
  own (overwrite (VObj ps) d meta) "notes" = d_notes d /\
  own (overwrite (VObj ps) d meta) "meta" = meta /\
  forall k, ~ In k ["lat"; "lng"; "title"; "notes"; "meta"] ->
            own (overwrite (VObj ps) d meta) k = lookup ps k.
Proof.
  unfold overwrite, own, spread.
  repeat split.
  - rewrite !lookup_define_other by discriminate. apply lookup_define_same.
  - rewrite !lookup_define_other by discriminate. apply lookup_define_same.
  - rewrite !lookup_define_other by discriminate. apply lookup_define_same.
  - rewrite !lookup_define_other by discriminate. apply lookup_define_same.
  - apply lookup_define_same.
  - intros k Hk. simpl in Hk.
    rewrite !lookup_define_other; [reflexivity | | | | |];
      intros <-; apply Hk; tauto.
Qed.

Lemma overwrite_place l d meta : is_place l -> is_place (overwrite l d meta) /\
  id_of (overwrite l d meta) = id_of l.
Proof.
  intros (ps & u & -> & Hid).
  destruct (overwrite_reads ps d meta) as (_ & _ & _ & _ & _ & Hrest).
  assert (Hk : own (overwrite (VObj ps) d meta) "id" = lookup ps "id").
  { apply Hrest. simpl. intros [H|[H|[H|[H|[H|[]]]]]]; discriminate. }
  split; [|exact Hk].
  eexists _, u. split; [reflexivity|].
  rewrite <- Hid. exact Hk.
Qed.

Lemma save_updater_places d meta prev :
  Forall is_place prev ->
  exists next,
    save_updater d meta prev = Normal next /\
    ids next = ids prev /\
    Forall is_place next.
Proof.
  induction 1 as [|l r Hl Hr (next & Hn & Hids & Hpl)].
  - exists []. repeat split. constructor.
  - unfold save_updater in *. simpl.
    destruct Hl as (ps & u & -> & Hid). simpl. rewrite Hn. simpl.
    eexists. split; [reflexivity|].
    assert (Hp : is_place (VObj ps)) by (now exists ps, u).
    destruct (strict_eq (lookup ps "id") (d_id d)).
    + destruct (overwrite_place (VObj ps) d meta Hp) as [Hp' Hid'].
      split; [|now constructor].
      change (id_of (overwrite (VObj ps) d meta) :: ids next
              = id_of (VObj ps) :: ids r).
      now rewrite Hid', Hids.
    + split; [|now constructor].
      change (id_of (VObj ps) :: ids next = id_of (VObj ps) :: ids r).
      now rewrite Hids.
Qed.

Lemma delete_updater_places id prev :
  Forall is_place prev ->
  delete_updater id prev =
    Normal (filter (fun l => negb (strict_eq (id_of l) id)) prev).
Proof.
  induction 1 as [|l r Hl Hr IH]; [reflexivity|].
  unfold delete_updater in *. simpl.
  destruct Hl as (ps & u & -> & Hid). simpl. rewrite IH. simpl.
  unfold id_of. simpl. now destruct (strict_eq (lookup ps "id") id).
Qed.

Lemma ids_filter_incl (p : value -> bool) locs x :
  In x (ids (filter p locs)) -> In x (ids locs).
Proof.
  unfold ids. rewrite !in_map_iff. intros (l & <- & Hin).
  apply filter_In in Hin as [Hin _]. now exists l.
Qed.

Lemma NoDup_ids_filter (p : value -> bool) locs :
  NoDup (ids locs) -> NoDup (ids (filter p locs)).
Proof.
  induction locs as [|l r IH]; simpl; [easy|].
  intros H. inversion H as [|x xs Hnot Hnd]; subst.
  destruct (p l); simpl; [|auto].
  constructor; [|auto].
  intros Hin. apply Hnot. now apply ids_filter_incl in Hin.
Qed.

Lemma Forall_filter_place (p : value -> bool) locs :
  Forall is_place locs -> Forall is_place (filter p locs).
Proof.
  rewrite !Forall_forall. intros H l Hin.
  apply filter_In in Hin as [Hin _]. auto.
Qed.

Lemma reachable_places locs :
  reachable locs -> Forall is_place locs /\ NoDup (ids locs).
Proof.
  induction 1 as [ | prev d meta uuid now newLoc _ [IHp IHn] Hnew Hfresh
                   | prev d meta next _ [IHp IHn] Hsave
                   | prev id next _ [IHp IHn] Hdel ].
  - split; constructor.
  - apply newLocation_place in Hnew as [Hpl Hid].
    split; [now constructor|].
    simpl. rewrite Hid. now constructor.
  - destruct (save_updater_places d meta prev IHp) as (next' & Hn & Hids & Hpl).
    rewrite Hn in Hsave. injection Hsave as <-.
    split; [exact Hpl | now rewrite Hids].
  - rewrite (delete_updater_places id prev IHp) in Hdel. injection Hdel as <-.
    split; [now apply Forall_filter_place | now apply NoDup_ids_filter].
Qed.

(** C1. Starting from the empty list, whatever the sequence of add,
    update and remove, as long as each add draws an id that no place of
    the list has at that moment, no two places of the list have the same
    id; and on such a list the update and the remove never throw, so the
    sequence can always go on. *)
Theorem ids_stay_unique locs :
  reachable locs ->
  NoDup (ids locs) /\
  (forall d meta, exists next, save_updater d meta locs = Normal next) /\
  (forall id, exists next, delete_updater id locs = Normal next).
Proof.
  intros H. destruct (reachable_places locs H) as [Hpl Hnd].
  split; [exact Hnd|]. split.
  - intros d meta.
    destruct (save_updater_places d meta locs Hpl) as (next & Hn & _).
    now exists next.
  - intros id. eexists. now apply delete_updater_places.
Qed.

End PlaceList.

(** ** The reverse-geocode lookup *)

Module Geocode.
Import JS App Contract JSFacts.

Section Lookup.

Variable fetch : value -> value -> response.

Lemma opt_member_own v k : opt_member v k = own v k.
Proof. now destruct v. Qed.

Lemma enrich_run lat lng w :
  enrichWithReverseGeocode fetch lat lng w =
    (Normal (enrichment (fetch lat lng)),
     after_lookup w (warnings (fetch lat lng))).
Proof.
  destruct w as [l c s d lm ls al co dl due].
  unfold enrichWithReverseGeocode, try_finally, try_catch, bind, after_lookup.
  destruct (fetch lat lng) as [|[| |j]]; simpl; try reflexivity.
  now rewrite app_nil_r.
Qed.

Lemma or_chain_first_truthy address :
  or_else (or_else (or_else (opt_member address "city")
                            (opt_member address "town"))
                   (opt_member address "village"))
          (opt_member address "county")
  = first_truthy address.
Proof.
  rewrite !opt_member_own. unfold first_truthy, or_else, find.
  destruct (truthy (own address "city")) eqn:Ec;
    [now repeat (cbv iota; rewrite ?Ec)|].
  destruct (truthy (own address "town")) eqn:Et;
    [now repeat (cbv iota; rewrite ?Et)|].
  destruct (truthy (own address "village")) eqn:Ev;
    now repeat (cbv iota; rewrite ?Ev).
Qed.

(** C7. Whatever the coordinates and whatever the service does, the
    lookup resolves: it never throws to its caller. When the request
    fails or the body of the response is not JSON it resolves to the
    empty record; nothing is shown to the user (no alert), the failure
    goes to the console only, and the loading flag is down again. *)
Theorem lookup_always_resolves lat lng w :
  exists meta w',
    enrichWithReverseGeocode fetch lat lng w = (Normal meta, w') /\
    ((forall j, fetch lat lng <> Responds (JSON.Doc j)) -> meta = VObj []) /\
    alerts w' = alerts w /\
    loadingMeta w' = false /\
    locations w' = locations w /\
    isCollecting w' = isCollecting w /\
    showList w' = showList w /\
    draft w' = draft w /\
    localStorage w' = localStorage w.
Proof.
  destruct w as [l c s d lm ls al co dl due].
  eexists _, _. split; [apply enrich_run|].
  split; [|now repeat split].
  intros Hno. destruct (fetch lat lng) as [|[| |j]]; try reflexivity.
  now destruct (Hno j).
Qed.

(** C8, as the code has it. For every response whose body is JSON, the
    city of the enrichment is the value of the first of city, town,
    village that is truthy in the address of the response, and what
    county holds when none of the three is. *)
Theorem city_falls_back_on_truthy lat lng w j :
  fetch lat lng = Responds (JSON.Doc j) ->
  exists meta w',
    enrichWithReverseGeocode fetch lat lng w = (Normal meta, w') /\
    own meta "city" = first_truthy (opt_member (JSON.revive j) "address").
Proof.
  intros Hf. eexists _, _. split; [apply enrich_run|].
  rewrite Hf. simpl. apply or_chain_first_truthy.
Qed.

End Lookup.

End Geocode.

(** ** Committing a draft *)

Module Editing.
Import JS App Contract JSFacts PlaceList Geocode.

Section Commit.

Variable fetch : value -> value -> response.

Lemma enrichment_is_object r : exists mp, enrichment r = VObj mp.
Proof. destruct r as [|[| |j]]; simpl; eauto. Qed.

Lemma trimmed_or_empty n : or_else (VStr (trim n)) (VStr "") = VStr (trim n).
Proof.
  unfold or_else. simpl. destruct (trim n =? "") eqn:E; simpl; [|reflexivity].
  apply String.eqb_eq in E. now rewrite E.
Qed.

Lemma truthy_trim t : truthy (VStr (trim t)) = negb (blank t).
Proof.
  unfold blank. simpl.
  destruct (forallb is_white (list_ascii_of_string t)) eqn:E; simpl.
  - now rewrite (trim_white t E).
  - apply trim_not_white in E. apply String.eqb_neq in E. now rewrite E.
Qed.

(** The object literal when the draft holds strings, as the two inputs
    of the panel make it *)
Lemma newLocation_strings d mp uuid now t n :
  d_title d = VStr t -> d_notes d = VStr n ->
  newLocation d (VObj mp) uuid now =
    Normal (VObj [("id", VStr uuid); ("lat", d_lat d); ("lng", d_lng d);
                  ("title",
                   if blank t
                   then or_else (lookup mp "city") (VStr "Untitled place")
                   else VStr (trim t));
                  ("notes", VStr (trim n));
                  ("createdAt", VNum now); ("meta", VObj mp)]).
Proof.
  intros Ht Hn. unfold newLocation. rewrite Ht, Hn.
  cbn [opt_trim cbind]. rewrite truthy_trim, trimmed_or_empty.
  now destruct (blank t).
Qed.

Lemma addDraftToLocations_run w d uuid now newLoc :
  draft w = Some d ->
  newLocation d (enrichment (fetch (d_lat d) (d_lng d))) uuid now = Normal newLoc ->
  exists w',
    addDraftToLocations fetch uuid now w = (Normal tt, w') /\
    locations w' = newLoc :: locations w /\
    draft w' = None /\
    isCollecting w' = isCollecting w /\
    showList w' = showList w /\
    alerts w' = alerts w.
Proof.
  intros Hd Hnew. destruct w as [l c s d0 lm ls al co dl due].
  cbn [draft] in Hd. subst d0.
  unfold addDraftToLocations. cbn [draft].
  unfold bind at 1. rewrite enrich_run.
  unfold bind at 1. unfold lift at 1. rewrite Hnew.
  eexists. split; [reflexivity|]. now repeat split.
Qed.

Lemma trimStart_spec s :
  exists pre,
    s = (pre ++ trimStart s)%string /\
    blank pre = true /\
    starts_white (trimStart s) = false.
Proof.
  induction s as [|c r (pre & Hr & Hb & Hs)].
  - exists EmptyString. now repeat split.
  - simpl. destruct (is_white c) eqn:Hc.
    + exists (String c pre). split; [simpl; now rewrite <- Hr|].
      split; [|exact Hs]. unfold blank in *. simpl. now rewrite Hc.
    + exists EmptyString. now repeat split.
Qed.

Lemma trimEnd_spec s :
  exists post,
    s = (trimEnd s ++ post)%string /\
    blank post = true /\
    ends_white (trimEnd s) = false.
Proof.
  induction s as [|c r (post & Hr & Hb & He)].
  - exists EmptyString. now repeat split.
  - simpl. destruct (trimEnd r) as [|c' r'] eqn:Er.
    + simpl in Hr. subst post. destruct (is_white c) eqn:Hc.
      * exists (String c r). split; [reflexivity|]. split; [|reflexivity].
        unfold blank in *. simpl. now rewrite Hc.
      * exists r. split; [reflexivity|]. split; [exact Hb|].
        unfold ends_white. simpl. exact Hc.
    + exists post. split; [simpl in Hr |- *; now rewrite <- Hr|].
      split; [exact Hb | exact He].
Qed.

Lemma trimEnd_starts s :
  starts_white s = false -> starts_white (trimEnd s) = false.
Proof.
  destruct s as [|c r]; simpl; [easy|]. intros Hc.
  destruct (trimEnd r); [now rewrite Hc | exact Hc].
Qed.

(** What [trim] returns is the string without the white space at its
    two ends. *)
Lemma trim_is_trimmed t : trimmed_of t (trim t).
Proof.
  unfold trim.
  destruct (trimStart_spec t) as (pre & Ht & Hpre & Hs).
  destruct (trimEnd_spec (trimStart t)) as (post & Hm & Hpost & He).
  exists pre, post. split; [now rewrite <- Hm|].
  split; [exact Hpre|]. split; [exact Hpost|].
  split; [now apply trimEnd_starts | exact He].
Qed.

(** The object literal for the drafts that add commits: each of title
    and notes a string, [null] or [undefined]. *)
Lemma newLocation_committed d mp uuid now :
  trimmable (d_title d) = true ->
  trimmable (d_notes d) = true ->
  exists title notes,
    newLocation d (VObj mp) uuid now =
      Normal (VObj [("id", VStr uuid); ("lat", d_lat d); ("lng", d_lng d);
                    ("title", title); ("notes", notes);
                    ("createdAt", VNum now); ("meta", VObj mp)]) /\
    (no_title (d_title d) = true ->
     title = or_else (lookup mp "city") (VStr "Untitled place")) /\
    (forall t, d_title d = VStr t -> blank t = false -> title = VStr (trim t)).
Proof.
  intros Ht Hn. unfold newLocation.
  assert (Hnotes : exists n, opt_trim (d_notes d) = Normal n)
    by (destruct (d_notes d); try discriminate Hn; eexists; reflexivity).
  destruct Hnotes as [n En]. rewrite En.
  destruct (d_title d) as [| | | |t| |]; try discriminate Ht;
    cbn [opt_trim cbind truthy member own no_title].
  - eexists _, _. split; [reflexivity|]. split; [reflexivity | discriminate].
  - eexists _, _. split; [reflexivity|]. split; [reflexivity | discriminate].
  - change (negb (trim t =? "")) with (truthy (VStr (trim t))).
    rewrite truthy_trim. destruct (blank t) eqn:Eb; cbn [negb cbind].
    + eexists _, _. split; [reflexivity|]. split; [reflexivity|].
      intros t0 E. injection E as <-. now rewrite Eb.
    + eexists _, _. split; [reflexivity|]. split; [discriminate|].
      intros t0 E _. now injection E as <-.
Qed.

(** A draft with a field that [?.trim()] rejects is not committed: the
    literal throws before the list is touched. *)
Lemma newLocation_rejected d meta uuid now :
  trimmable (d_title d) = false \/
  (trimmable (d_title d) = true /\ trimmable (d_notes d) = false) ->
  exists e, newLocation d (VObj meta) uuid now = Throw e.
Proof.
  unfold newLocation. intros [Ht | [Ht Hn]].
  - destruct (d_title d); try discriminate Ht; eexists; reflexivity.
  - destruct (opt_trim (d_title d)) as [t|e] eqn:Et;
      [|destruct (d_title d); discriminate].
    cbn [cbind].
    destruct (truthy t); cbn [cbind member own or_else];
      destruct (d_notes d); try discriminate Hn; eexists; reflexivity.
Qed.

(** C4. Add commits every draft whose title and notes are each a
    string, [null] or [undefined], and the title of the new place,
    which goes first in the list, is as follows. When the draft has no
    title (a blank string, or none): the city the lookup returned when
    that city is a non-empty string, and more generally any truthy
    city; "Untitled place" when the lookup returned no city, and more
    generally a falsy one. When the title is a string that is not
    blank: that string without the white space at its two ends. *)
Theorem add_title_default w d uuid now meta wm :
  draft w = Some d ->
  trimmable (d_title d) = true ->
  trimmable (d_notes d) = true ->
  enrichWithReverseGeocode fetch (d_lat d) (d_lng d) w = (Normal meta, wm) ->
  exists newLoc w',
    addDraftToLocations fetch uuid now w = (Normal tt, w') /\
    locations w' = newLoc :: locations w /\
    own newLoc "meta" = meta /\
    (no_title (d_title d) = true ->
     forall c, own meta "city" = VStr c -> c <> "" ->
               own newLoc "title" = VStr c) /\
    (no_title (d_title d) = true ->
     own meta "city" = VUndefined ->
     own newLoc "title" = VStr "Untitled place") /\
    (no_title (d_title d) = true ->
     truthy (own meta "city") = true ->
     own newLoc "title" = own meta "city") /\
    (no_title (d_title d) = true ->
     truthy (own meta "city") = false ->
     own newLoc "title" = VStr "Untitled place") /\
    (forall t, d_title d = VStr t -> blank t = false ->
     exists t', own newLoc "title" = VStr t' /\ trimmed_of t t').
Proof.
  intros Hd Ht Hn Hmeta.
  rewrite enrich_run in Hmeta. injection Hmeta as Hmeta _.
  destruct (enrichment_is_object (fetch (d_lat d) (d_lng d))) as [mp Hmp].
  destruct (newLocation_committed d mp uuid now Ht Hn)
    as (title & notes & Hnew & Hnone & Hsome).
  rewrite <- Hmp in Hnew.
  destruct (addDraftToLocations_run w d uuid now _ Hd Hnew)
    as (w' & Hrun & Hlocs & _).
  eexists _, w'. split; [exact Hrun|]. split; [exact Hlocs|].
  rewrite <- Hmeta, Hmp. cbn [own lookup String.eqb Ascii.eqb Bool.eqb].
  split; [reflexivity|].
  split; [|split; [|split; [|split]]].
  - intros Hb c Hc Hne. rewrite (Hnone Hb), Hc. unfold or_else.
    now rewrite (truthy_nonempty c Hne).
  - intros Hb Hc. now rewrite (Hnone Hb), Hc.
  - intros Hb Hc. rewrite (Hnone Hb). unfold or_else. now rewrite Hc.
  - intros Hb Hc. rewrite (Hnone Hb). unfold or_else. now rewrite Hc.
  - intros t Et Hb. exists (trim t). split; [now apply Hsome|].
    apply trim_is_trimmed.
Qed.

Lemma strict_eq_string v i : strict_eq v (VStr i) = true <-> v = VStr i.
Proof.
  destruct v; simpl; split; try discriminate.
  - intros H. apply String.eqb_eq in H. now subst.
  - intros H. injection H as ->. apply String.eqb_refl.
Qed.

Lemma save_updater_map d meta prev :
  Forall (fun l => nullish l = false) prev ->
  save_updater d meta prev =
    Normal (map (fun l => if strict_eq (own l "id") (d_id d)
                          then overwrite l d meta else l) prev).
Proof.
  induction 1 as [|l r Hl Hr IH]; [reflexivity|].
  unfold save_updater in *. cbn [cmap]. rewrite IH.
  destruct l; try discriminate; reflexivity.
Qed.

Lemma saveEdit_run w d :
  draft w = Some d ->
  truthy (d_id d) = true ->
  Forall (fun l => nullish l = false) (locations w) ->
  exists w',
    saveEdit fetch w = (Normal tt, w') /\
    locations w' =
      map (fun l => if strict_eq (own l "id") (d_id d)
                    then overwrite l d (enrichment (fetch (d_lat d) (d_lng d)))
                    else l) (locations w) /\
    draft w' = None /\
    isCollecting w' = isCollecting w /\
    showList w' = showList w.
Proof.
  intros Hd Hid Hall. destruct w as [l c s d0 lm ls al co dl due].
  cbn [draft locations] in *. subst d0.
  unfold saveEdit. cbn [draft]. rewrite Hid. cbn [negb].
  unfold bind at 1. rewrite enrich_run.
  unfold bind at 1, updateLocations at 1, bind at 1, lift at 1.
  cbn [locations after_lookup]. rewrite (save_updater_map _ _ _ Hall).
  eexists. split; [reflexivity|]. now repeat split.
Qed.

(** C9. A draft that carries an id (a non-empty string, as the panel
    requires to offer Save), on a list of places none of which is null
    or undefined: the edit is committed, the list keeps its length, and
    position by position a place with that id now reads the draft's lat,
    lng, title and notes and the meta of the lookup, with its id, its
    createdAt and every other property as before, while a place with
    another id is the same as before. *)
Theorem saveEdit_touches_one_place w d i :
  draft w = Some d ->
  d_id d = VStr i ->
  i <> "" ->
  Forall (fun l => nullish l = false) (locations w) ->
  exists meta wm w',
    enrichWithReverseGeocode fetch (d_lat d) (d_lng d) w = (Normal meta, wm) /\
    saveEdit fetch w = (Normal tt, w') /\
    length (locations w') = length (locations w) /\
    forall n l,
      nth_error (locations w) n = Some l ->
      exists l',
        nth_error (locations w') n = Some l' /\
        (id_of l = VStr i ->
         own l' "lat" = d_lat d /\
         own l' "lng" = d_lng d /\
         own l' "title" = d_title d /\
         own l' "notes" = d_notes d /\
         own l' "meta" = meta /\
         own l' "id" = own l "id" /\
         own l' "createdAt" = own l "createdAt" /\
         forall k, ~ In k ["lat"; "lng"; "title"; "notes"; "meta"] ->
                   own l' k = own l k) /\
        (id_of l <> VStr i -> l' = l).
Proof.
  intros Hd Hid Hne Hall.
  assert (Ht : truthy (d_id d) = true) by (rewrite Hid; now apply truthy_nonempty).
  destruct (saveEdit_run w d Hd Ht Hall) as (w' & Hrun & Hlocs & _).
  eexists _, _, w'. split; [apply enrich_run|]. split; [exact Hrun|].
  rewrite Hlocs. split; [apply length_map|].
  intros n l Hn. rewrite nth_error_map, Hn. cbn [option_map].
  eexists. split; [reflexivity|]. rewrite Hid. split.
  - intros Hl. unfold id_of in Hl.
    assert (E : strict_eq (own l "id") (VStr i) = true)
      by now apply strict_eq_string.
    rewrite E. destruct l; try discriminate Hl.
    destruct (overwrite_reads props d (enrichment (fetch (d_lat d) (d_lng d))))
      as (H1 & H2 & H3 & H4 & H5 & H6).
    repeat split; try assumption.
    + apply H6. simpl. intros [H|[H|[H|[H|[H|[]]]]]]; discriminate.
    + apply H6. simpl. intros [H|[H|[H|[H|[H|[]]]]]]; discriminate.
  - intros Hl. destruct (strict_eq (own l "id") (VStr i)) eqn:E; [|reflexivity].
    apply strict_eq_string in E. now destruct Hl.
Qed.

End Commit.

End Editing.

(** ** Storage, startup, reset and import *)

Module Persistence.
Import JS App Contract JSFacts.

Lemma getItem_removeItem ls k : getItem (removeItem ls k) k = None.
Proof.
  induction ls as [|[k' t] r IH]; simpl; [reflexivity|].
  destruct (k' =? k) eqn:E; simpl; [exact IH | now rewrite E].
Qed.

Lemma getItem_setItem ls k t : getItem (setItem ls k t) k = Some t.
Proof. unfold setItem. simpl. now rewrite String.eqb_refl. Qed.

(** A commit writes to the storage and nowhere else. *)
Lemma commit_cells w :
  exists w',
    commit w = (Normal tt, w') /\
    locations w' = locations w /\
    isCollecting w' = isCollecting w /\
    showList w' = showList w /\
    draft w' = draft w /\
    loadingMeta w' = loadingMeta w /\
    alerts w' = alerts w /\
    console w' = console w /\
    downloads w' = downloads w /\
    persist_due w' = false /\
    (persist_due w = false -> w' = w).
Proof.
  destruct w as [l c s d lm ls al co dl due].
  unfold commit. cbn [persist_due]. destruct due.
  - eexists. split; [reflexivity|]. repeat split. discriminate.
  - eexists. split; [reflexivity|]. now repeat split.
Qed.

Lemma dispatch_cells (fetch : value -> value -> response) ev w r w1 :
  handler fetch ev w = (r, w1) ->
  exists w',
    dispatch fetch ev w = (r, w') /\
    locations w' = locations w1 /\
    isCollecting w' = isCollecting w1 /\
    showList w' = showList w1 /\
    draft w' = draft w1 /\
    alerts w' = alerts w1 /\
    console w' = console w1.
Proof.
  intros H. unfold dispatch. rewrite H.
  destruct (commit_cells w1) as (w' & Hc & Hl & Hi & Hs & Hd & _ & Ha & Hk & _).
  rewrite Hc. exists w'. now repeat split.
Qed.

(** *** Startup *)

Lemma load_effect_unparseable ls :
  getItem ls STORAGE_KEY = None \/
  (exists raw, getItem ls STORAGE_KEY = Some raw /\
               forall v, JSON.parse raw <> Normal v) ->
  load_effect (initial ls) = (Normal tt, initial ls).
Proof.
  unfold load_effect. cbn [localStorage initial].
  intros [-> | (raw & -> & Hno)]; [reflexivity|].
  destruct raw as [| |j]; try reflexivity.
  now destruct (Hno (JSON.revive j)).
Qed.

(** C6. When the storage holds no document under the key, or a text
    that does not parse as JSON, startup ends normally with the
    defaults: no place, collecting, list shown, no draft; nothing is
    shown to the user and nothing is logged. *)
Theorem startup_falls_back_to_defaults ls :
  getItem ls STORAGE_KEY = None \/
  (exists raw, getItem ls STORAGE_KEY = Some raw /\
               forall v, JSON.parse raw <> Normal v) ->
  exists w,
    mount ls = (Normal tt, w) /\
    locations w = [] /\
    isCollecting w = VBool true /\
    showList w = VBool true /\
    draft w = None /\
    alerts w = [] /\
    console w = [].
Proof.
  intros H. unfold mount.
  unfold bind at 1. rewrite (load_effect_unparseable ls H).
  eexists. split; [reflexivity|]. now repeat split.
Qed.

(** A document that parses but whose [locations] is not an array is
    left aside as well. *)
Lemma load_effect_other_shape ls j :
  getItem ls STORAGE_KEY = Some (JSON.Doc j) ->
  (forall items, opt_member (JSON.revive j) "locations" <> VArr items) ->
  load_effect (initial ls) = (Normal tt, initial ls).
Proof.
  intros Hraw Hno. unfold load_effect. cbn [localStorage initial].
  rewrite Hraw. cbn [nonempty]. unfold try_catch.
  unfold bind at 1. unfold lift at 1. cbn [JSON.parse].
  destruct (opt_member (JSON.revive j) "locations") eqn:E; try reflexivity.
  now destruct (Hno elems).
Qed.

Lemma load_effect_document ls j ps items :
  getItem ls STORAGE_KEY = Some (JSON.Doc j) ->
  JSON.revive j = VObj ps ->
  lookup ps "locations" = VArr items ->
  load_effect (initial ls) =
    (Normal tt,
     mkWorld items
             (coalesce (lookup ps "isCollecting") (VBool false))
             (coalesce (lookup ps "showList") (VBool false))
             None false ls [] [] [] true).
Proof.
  intros Hraw Hj Hl. unfold load_effect. cbn [localStorage initial].
  rewrite Hraw. cbn [nonempty]. unfold try_catch.
  unfold bind at 1. unfold lift at 1. cbn [JSON.parse]. rewrite Hj.
  cbn [opt_member nullish own]. rewrite Hl.
  unfold bind, lift. cbn [member own]. rewrite Hl.
  reflexivity.
Qed.

(** C10. When the persisted document parses and its [locations] is an
    array, startup takes that array, and a flag the document does not
    have comes out [false], not the [true] of the defaults. *)
Theorem startup_missing_flag_is_false ls j items :
  getItem ls STORAGE_KEY = Some (JSON.Doc j) ->
  own (JSON.revive j) "locations" = VArr items ->
  exists w,
    mount ls = (Normal tt, w) /\
    locations w = items /\
    (own (JSON.revive j) "isCollecting" = VUndefined ->
     isCollecting w = VBool false) /\
    (own (JSON.revive j) "showList" = VUndefined ->
     showList w = VBool false).
Proof.
  intros Hraw Hl.
  destruct (JSON.revive j) as [| | | | | |ps] eqn:Hj; try discriminate Hl.
  cbn [own] in *.
  unfold mount. unfold bind at 1.
  rewrite (load_effect_document ls j ps items Hraw Hj Hl).
  eexists. split; [reflexivity|].
  cbn [locations isCollecting showList].
  split; [reflexivity|].
  split; intros ->; reflexivity.
Qed.

(** *** Reset *)

Lemma handleReset_clears_storage w :
  getItem (localStorage (snd (handleReset true w))) STORAGE_KEY = None.
Proof. destruct w. cbn. apply getItem_removeItem. Qed.

Lemma reset_declined (fetch : value -> value -> response) w :
  handler fetch (Reset false) w = (Normal tt, w).
Proof. reflexivity. Qed.

(** C5, on the code. After a confirmed reset the cells hold the
    defaults, and the handler has removed the document; but the three
    cells it set are the dependencies of the persist effect, which runs
    at the commit and writes the document of the defaults back: the key
    is not empty once the reset is over. *)
Theorem reset_leaves_a_document (fetch : value -> value -> response) w :
  exists w',
    dispatch fetch (Reset true) w = (Normal tt, w') /\
    locations w' = [] /\
    isCollecting w' = VBool true /\
    showList w' = VBool true /\
    draft w' = None /\
    getItem (localStorage w') STORAGE_KEY = Some default_document.
Proof.
  destruct w as [locs c s d lm ls al co dl due].
  eexists. split; [reflexivity|].
  cbn [locations isCollecting showList draft localStorage].
  split; [reflexivity|]. split; [reflexivity|]. split; [reflexivity|].
  split; [reflexivity|]. apply getItem_setItem.
Qed.

(** *** Import *)

Lemma onUploadFile_array t items w :
  JSON.parse t = Normal (VArr items) ->
  exists w1,
    onUploadFile (Some t) w = (Normal tt, w1) /\
    locations w1 = items /\
    isCollecting w1 = VBool false /\
    showList w1 = VBool false /\
    alerts w1 = alerts w.
Proof.
  intros H. destruct w as [l c s d lm ls al co dl due].
  unfold onUploadFile, try_catch, bind at 1, lift. rewrite H.
  eexists. split; [reflexivity|]. now repeat split.
Qed.

Lemma onUploadFile_other t v w :
  JSON.parse t = Normal v ->
  (forall items, v <> VArr items) ->
  exists w1,
    onUploadFile (Some t) w = (Normal tt, w1) /\
    alerts w1 = alerts w ++ ["Invalid file format."] /\
    locations w1 = locations w /\
    isCollecting w1 = isCollecting w /\
    showList w1 = showList w.
Proof.
  intros H Hno. destruct w as [l c s d lm ls al co dl due].
  unfold onUploadFile, try_catch, bind at 1, lift. rewrite H.
  destruct v; try (eexists; split; [reflexivity|]; now repeat split).
  now destruct (Hno elems).
Qed.

Lemma onUploadFile_unparseable t w :
  (forall v, JSON.parse t <> Normal v) ->
  exists w1,
    onUploadFile (Some t) w = (Normal tt, w1) /\
    alerts w1 = alerts w ++ ["Could not parse JSON."] /\
    locations w1 = locations w /\
    isCollecting w1 = isCollecting w /\
    showList w1 = showList w.
Proof.
  intros Hno. destruct w as [l c s d lm ls al co dl due].
  destruct t as [| |j].
  - eexists. split; [reflexivity|]. now repeat split.
  - eexists. split; [reflexivity|]. now repeat split.
  - now destruct (Hno (JSON.revive j)).
Qed.

(** C3. An imported text that parses as JSON: when its top-level value
    is not an array, the user gets the alert "Invalid file format." and
    the places and the two flags stay as they were; when it is an array,
    that array becomes the place list, and the component is no longer
    collecting and the list is hidden. *)
Theorem import_replaces_or_alerts (fetch : value -> value -> response) t v w :
  JSON.parse t = Normal v ->
  exists w',
    dispatch fetch (Upload (Some t)) w = (Normal tt, w') /\
    ((forall items, v <> VArr items) ->
     alerts w' = alerts w ++ ["Invalid file format."] /\
     locations w' = locations w /\
     isCollecting w' = isCollecting w /\
     showList w' = showList w) /\
    (forall items, v = VArr items ->
     locations w' = items /\
     isCollecting w' = VBool false /\
     showList w' = VBool false /\
     alerts w' = alerts w).
Proof.
  intros Hp.
  destruct (handler fetch (Upload (Some t)) w) as [r w1] eqn:Hh.
  destruct (dispatch_cells fetch _ w r w1 Hh)
    as (w' & Hd & Hl & Hc & Hs & _ & Ha & _).
  cbn [handler] in Hh.
  assert (Hr : r = Normal tt /\
               ((forall items, v <> VArr items) ->
                alerts w1 = alerts w ++ ["Invalid file format."] /\
                locations w1 = locations w /\
                isCollecting w1 = isCollecting w /\
                showList w1 = showList w) /\
               (forall items, v = VArr items ->
                locations w1 = items /\
                isCollecting w1 = VBool false /\
                showList w1 = VBool false /\
                alerts w1 = alerts w)).
  { split; [|split].
    - destruct v;
        try (destruct (onUploadFile_other t _ w Hp) as (w2 & H2 & _);
             [discriminate | rewrite H2 in Hh; now injection Hh]).
      destruct (onUploadFile_array t elems w Hp) as (w2 & H2 & _).
      rewrite H2 in Hh. now injection Hh.
    - intros Hno.
      destruct (onUploadFile_other t v w Hp Hno) as (w2 & H2 & Hrest).
      rewrite H2 in Hh. injection Hh as _ <-. exact Hrest.
    - intros items ->.
      destruct (onUploadFile_array t items w Hp) as (w2 & H2 & Hrest).
      rewrite H2 in Hh. injection Hh as _ <-. exact Hrest. }
  destruct Hr as (-> & Hother & Harr).
  exists w'. split; [exact Hd|].
  rewrite Hl, Hc, Hs, Ha. split; assumption.
Qed.

End Persistence.

(** ** Sessions: the place list through the events *)

Module Sessions.
Import JS App Contract JSFacts PlaceList Geocode Persistence.

Section Events.

Variable fetch : value -> value -> response.

(** Each handler either leaves the place list alone or applies one of
    the three updaters to it. *)
Lemma handler_keeps_reachable ev w :
  admissible ev w ->
  reachable (locations w) ->
  reachable (locations (snd (handler fetch ev w))).
Proof.
  intros Ha Hr. destruct w as [l c s d lm ls al co dl due].
  cbn [locations] in *.
  destruct ev; cbn [handler admissible locations] in *.
  - unfold click. cbn [isCollecting]. now destruct (truthy c).
  - unfold editTitle. cbn [draft]. now destruct d.
  - unfold editNotes. cbn [draft]. now destruct d.
  - exact Hr.
  - unfold addDraftToLocations. cbn [draft]. destruct d as [d|]; [|exact Hr].
    unfold bind at 1. rewrite enrich_run. cbn [after_lookup].
    unfold bind at 1, lift at 1.
    destruct (newLocation d _ uuid now) as [newLoc|e] eqn:E; [|exact Hr].
    cbn. eapply reach_add; eauto.
  - unfold deleteLocation, updateLocations, bind, lift. cbn [locations].
    destruct (delete_updater id l) as [next|e] eqn:E; [|exact Hr].
    cbn. eapply reach_remove; eauto.
  - unfold startEdit, bind, lift. cbn [locations].
    destruct (find_by_id id l) as [[x|]|e]; try exact Hr.
    now destruct (truthy x).
  - unfold saveEdit. cbn [draft]. destruct d as [d|]; [|exact Hr].
    destruct (truthy (d_id d)); [|exact Hr]. cbn [negb].
    unfold bind at 1. rewrite enrich_run. cbn [after_lookup].
    unfold bind at 1, updateLocations at 1, bind at 1, lift at 1.
    cbn [locations].
    destruct (save_updater d _ l) as [next|e] eqn:E; [|exact Hr].
    cbn. eapply reach_update; eauto.
  - exact Hr.
  - exact Hr.
  - destruct confirmed; [apply reach_empty | exact Hr].
  - exact Hr.
  - destruct Ha.
Qed.

Lemma dispatch_keeps_reachable ev w :
  admissible ev w ->
  reachable (locations w) ->
  reachable (locations (snd (dispatch fetch ev w))).
Proof.
  intros Ha Hr.
  destruct (handler fetch ev w) as [r w1] eqn:Hh.
  destruct (dispatch_cells fetch ev w r w1 Hh) as (w' & Hd & Hl & _).
  rewrite Hd. cbn [snd]. rewrite Hl.
  change w1 with (snd (r, w1)). rewrite <- Hh.
  now apply handler_keeps_reachable.
Qed.

Lemma run_keeps_reachable w0 w :
  run fetch w0 w -> reachable (locations w0) -> reachable (locations w).
Proof.
  induction 1 as [w|w ev w2 Ha _ IH]; intros Hr; [exact Hr|].
  apply IH. now apply dispatch_keeps_reachable.
Qed.

(** The component, started with no place and driven by any events but
    imports, each add drawing a fresh id, never holds two places with
    the same id. *)
Lemma run_keeps_ids_unique w0 w :
  locations w0 = [] -> run fetch w0 w -> NoDup (ids (locations w)).
Proof.
  intros H0 Hrun.
  apply reachable_places, (run_keeps_reachable w0 w Hrun).
  rewrite H0. constructor.
Qed.

End Events.

End Sessions.

(** ** Export, then import *)

Module RoundTrip.
Import JS App Contract JSFacts.

Lemma existsb_eqb_has (ps : props_of) k :
  existsb (String.eqb k) (map fst ps) = has ps k.
Proof.
  induction ps as [|[k' v] r IH]; simpl; [reflexivity|].
  now rewrite IH, String.eqb_sym.
Qed.

Lemma distinct_cons (ps : props_of) k v :
  distinct (map fst ((k, v) :: ps)) = true ->
  has ps k = false /\ distinct (map fst ps) = true.
Proof.
  simpl. rewrite existsb_eqb_has. intros H.
  apply andb_true_iff in H as [H1 H2].
  now apply negb_true_iff in H1.
Qed.

Lemma has_revived_members ps k :
  has ps k = false -> has (revived (flat_map member_of ps)) k = false.
Proof.
  induction ps as [|[k' e] r IH]; simpl; [reflexivity|].
  intros H. apply orb_false_iff in H as [Hk Hr].
  unfold member_of at 1. simpl. destruct (JSON.serialize e); simpl.
  - now rewrite Hk, IH.
  - now apply IH.
Qed.

Lemma distinct_members ps :
  distinct (map fst ps) = true ->
  distinct (map fst (revived (flat_map member_of ps))) = true.
Proof.
  induction ps as [|[k e] r IH]; [reflexivity|].
  intros H. apply distinct_cons in H as [Hk Hr].
  simpl. unfold member_of at 1. simpl. destruct (JSON.serialize e); simpl.
  - rewrite existsb_eqb_has, (has_revived_members r k Hk). simpl. now apply IH.
  - now apply IH.
Qed.

(** With distinct names, reading the members one after the other lays
    them out in the order of the document. *)
Lemma fold_read_distinct ms acc :
  distinct (map fst (revived ms)) = true ->
  (forall k, has (revived ms) k = true -> has acc k = false) ->
  fold_left read ms acc = acc ++ revived ms.
Proof.
  revert acc. induction ms as [|[k x] r IH]; intros acc Hd Hacc; simpl.
  - now rewrite app_nil_r.
  - apply (distinct_cons (revived r) k (JSON.revive x)) in Hd as [Hk Hr].
    unfold read at 2. simpl.
    rewrite define_fresh by (apply Hacc; simpl; now rewrite String.eqb_refl).
    rewrite IH; [now rewrite <- app_assoc | exact Hr |].
    intros k' Hk'. rewrite has_app. simpl.
    rewrite (Hacc k') by (simpl; now rewrite Hk', orb_true_r).
    simpl. rewrite orb_false_r.
    destruct (k =? k') eqn:E; [|reflexivity].
    apply String.eqb_eq in E. subst k'. now rewrite Hk in Hk'.
Qed.

Lemma revive_object ms :
  JSON.revive (JSON.JObj ms) = VObj (fold_left read ms []).
Proof. reflexivity. Qed.

Lemma serialize_object ps :
  JSON.serialize (VObj ps) = Some (JSON.JObj (flat_map member_of ps)).
Proof. reflexivity. Qed.

Lemma serialize_array l :
  JSON.serialize (VArr l) = Some (JSON.JArr (map element l)).
Proof. reflexivity. Qed.

Lemma elements_read_back l :
  Forall reads_back l ->
  forallb (fun e => negb (is_undefined e) && storable e) l = true ->
  Forall2 equiv l (map JSON.revive (map element l)).
Proof.
  induction 1 as [|e r He Hr IH]; simpl; intros Hs; [constructor|].
  apply andb_true_iff in Hs as [Hs1 Hs2].
  apply andb_true_iff in Hs1 as [Hu Hse].
  constructor; [|now apply IH].
  specialize (He Hse). unfold element.
  destruct (JSON.serialize e); [exact He|].
  subst e. discriminate Hu.
Qed.

Lemma properties_read_back ps :
  Forall (fun p => reads_back (snd p)) ps ->
  distinct (map fst ps) = true ->
  forallb (fun p => storable (snd p)) ps = true ->
  forall k, equiv (lookup ps k) (lookup (revived (flat_map member_of ps)) k).
Proof.
  induction 1 as [|[k' e] r He Hr IH]; simpl; intros Hd Hs k; [constructor|].
  apply andb_true_iff in Hs as [Hse Hsr].
  apply (distinct_cons r k' e) in Hd as [Hk Hdr].
  specialize (IH Hdr Hsr k). specialize (He Hse). simpl in He.
  unfold member_of at 1. simpl.
  destruct (JSON.serialize e) as [j|]; simpl.
  - now destruct (k' =? k).
  - destruct (k' =? k) eqn:E; [|exact IH].
    apply String.eqb_eq in E. subst k' e.
    rewrite (has_false_lookup _ _ (has_revived_members r k Hk)).
    constructor.
Qed.

Lemma storable_reads_back v : reads_back v.
Proof.
  induction v as [| | b | n | s | l IH | ps IH] using value_ind;
    unfold reads_back; intros Hs.
  - reflexivity.
  - constructor.
  - constructor.
  - simpl in *. destruct n; try discriminate Hs; constructor; try reflexivity.
    now apply SFeqb_finite_refl.
  - constructor.
  - rewrite serialize_array. simpl JSON.revive.
    constructor. now apply elements_read_back.
  - simpl in Hs. apply andb_true_iff in Hs as [Hd Hs].
    rewrite serialize_object, revive_object.
    rewrite fold_read_distinct;
      [| now apply distinct_members | reflexivity].
    constructor. now apply properties_read_back.
Qed.

Lemma equiv_array_inv l1 l2 : equiv (VArr l1) (VArr l2) -> Forall2 equiv l1 l2.
Proof. now inversion 1. Qed.

(** C2, as the code has it. For every place list that JSON can carry
    (every number finite, no [undefined] element in an array), the
    export downloads a document whose import, in whatever state the
    component is, succeeds and sets a place list equivalent to the
    exported one, position by position: no read tells the two apart. *)
Theorem export_import_round_trip w :
  storable (VArr (locations w)) = true ->
  exists t w1,
    downloadJSON w = (Normal tt, w1) /\
    downloads w1 = downloads w ++ [("places.json", t)] /\
    forall w0, exists w2,
      onUploadFile (Some t) w0 = (Normal tt, w2) /\
      Forall2 equiv (locations w) (locations w2).
Proof.
  intros Hs.
  pose proof (storable_reads_back (VArr (locations w)) Hs) as Hrb.
  destruct w as [l c s d lm ls al co dl due]. cbn [locations] in *.
  exists (exported l). eexists.
  split; [reflexivity|]. split; [reflexivity|].
  intros [l0 c0 s0 d0 lm0 ls0 al0 co0 dl0 due0].
  unfold exported, JSON.stringify.
  destruct (JSON.serialize (VArr l)) as [j|] eqn:Hj;
    [|discriminate Hrb].
  simpl in Hj. injection Hj as <-. simpl in Hrb.
  eexists. split; [reflexivity|].
  now apply equiv_array_inv.
Qed.

End RoundTrip.

(** ** The contract on the sample data *)

Module Samples.
Import JS App Contract.

(** Two adds, an edit of the first place and the removal of the second
    leave one place, whose id is the only one of the list. *)
Lemma ids_stay_unique_sample :
  exists locs,
    reachable locs /\ ids locs = [VStr "id-1"] /\ NoDup (ids locs).
Proof.
  assert (R : { locs | reachable locs /\ ids locs = [VStr "id-1"] }).
  { eexists. split.
    - eapply reach_remove with (id := VStr "id-2").
      + eapply reach_update with (d := editing "id-1") (meta := VObj []).
        * eapply reach_add with (d := clicked) (meta := VObj []) (uuid := "id-2")
                                (now := of_Z 2).
          -- eapply reach_add with (d := clicked) (meta := VObj []) (uuid := "id-1")
                                  (now := of_Z 1).
             ++ apply reach_empty.
             ++ reflexivity.
             ++ simpl. tauto.
          -- reflexivity.
          -- simpl. intros [H|[]]. discriminate H.
        * reflexivity.
      + reflexivity.
    - reflexivity. }
  destruct R as [locs [R I]].
  exists locs. split; [exact R|]. split; [exact I|].
  exact (proj1 (PlaceList.ids_stay_unique locs R)).
Defined.

(** The round trip of a list of two places *)
Lemma export_import_round_trip_sample :
  exists t w2,
    exported [place "id-1" "Home"; place "id-2" "Work"] = t /\
    onUploadFile (Some t) (initial []) = (Normal tt, w2) /\
    Forall2 equiv [place "id-1" "Home"; place "id-2" "Work"] (locations w2).
Proof.
  destruct (RoundTrip.export_import_round_trip
              (with_draft [place "id-1" "Home"; place "id-2" "Work"] clicked)
              eq_refl) as (t & w1 & Hd & Hdl & Himp).
  destruct (Himp (initial [])) as (w2 & Hup & Heq).
  exists t, w2. split; [|split; [exact Hup | exact Heq]].
  injection Hd as Hw1. rewrite <- Hw1 in Hdl. simpl in Hdl.
  now injection Hdl.
Defined.

(** A file that holds [[{"id": "a", "lat": 1e999, "lng": 0}]] is
    imported, the list is exported and the export imported again: [lat]
    was a number and is now [null]. *)
Lemma export_import_loses_infinity :
  exists w t w2,
    onUploadFile (Some overflowing_file) (initial []) = (Normal tt, w) /\
    exported (locations w) = t /\
    onUploadFile (Some t) w = (Normal tt, w2) /\
    locations w = [VObj [("id", VStr "a");
                         ("lat", VNum (S754_infinity false));
                         ("lng", VNum (S754_zero false))]] /\
    locations w2 = [VObj [("id", VStr "a");
                          ("lat", VNull);
                          ("lng", VNum (S754_zero false))]] /\
    ~ Forall2 equiv (locations w) (locations w2).
Proof.
  eexists _, _, _. split; [reflexivity|]. split; [reflexivity|].
  split; [reflexivity|]. split; [reflexivity|]. split; [reflexivity|].
  simpl. intros H.
  inversion H as [|x y l l' Hxy _]; subst.
  inversion Hxy as [| | | | | |p1 p2 Hk]; subst.
  specialize (Hk "lat"). simpl in Hk. inversion Hk.
Qed.

(** An import of the object [{}] and an import of the array [[]] *)
Lemma import_replaces_or_alerts_sample :
  (exists w',
     dispatch service (Upload (Some (JSON.Doc (JSON.JObj [])))) (with_draft [place "id-1" "Home"] clicked)
       = (Normal tt, w') /\
     alerts w' = ["Invalid file format."] /\
     locations w' = [place "id-1" "Home"]) /\
  (exists w',
     dispatch service (Upload (Some (JSON.Doc (JSON.JArr [])))) (with_draft [place "id-1" "Home"] clicked)
       = (Normal tt, w') /\
     locations w' = [] /\ isCollecting w' = VBool false /\ showList w' = VBool false).
Proof.
  split.
  - destruct (Persistence.import_replaces_or_alerts service
                (JSON.Doc (JSON.JObj [])) (VObj [])
                (with_draft [place "id-1" "Home"] clicked) eq_refl)
      as (w' & Hd & Hother & _).
    exists w'. split; [exact Hd|].
    destruct Hother as (Ha & Hl & _); [discriminate|].
    split; [exact Ha | exact Hl].
  - destruct (Persistence.import_replaces_or_alerts service
                (JSON.Doc (JSON.JArr [])) (VArr [])
                (with_draft [place "id-1" "Home"] clicked) eq_refl)
      as (w' & Hd & _ & Harr).
    exists w'. split; [exact Hd|].
    destruct (Harr [] eq_refl) as (Hl & Hc & Hs & _).
    split; [exact Hl|]. split; [exact Hc | exact Hs].
Defined.

(** The example of the contract: no title, the service answers Jersey
    City, USA; and a title typed between white space, with a draft that
    has no notes. *)
Lemma add_title_default_sample :
  (exists newLoc w',
     addDraftToLocations service "id-1" (of_Z 1700000000000) (with_draft [] clicked)
       = (Normal tt, w') /\
     locations w' = [newLoc] /\
     own newLoc "title" = VStr "Jersey City" /\
     own (own newLoc "meta") "country" = VStr "USA") /\
  (exists newLoc w' t',
     addDraftToLocations service "id-2" (of_Z 1700000000000) (with_draft [] padded)
       = (Normal tt, w') /\
     locations w' = [newLoc] /\
     own newLoc "title" = VStr t' /\
     trimmed_of "  Pier   " t').
Proof.
  split.
  - destruct (Editing.add_title_default service (with_draft [] clicked) clicked
                "id-1" (of_Z 1700000000000) _ _
                eq_refl eq_refl eq_refl eq_refl)
      as (newLoc & w' & Hrun & Hlocs & Hmeta & Hcity & _).
    exists newLoc, w'. split; [exact Hrun|]. split; [exact Hlocs|].
    split.
    + apply Hcity; [reflexivity | reflexivity | discriminate].
    + rewrite Hmeta. reflexivity.
  - destruct (Editing.add_title_default service (with_draft [] padded) padded
                "id-2" (of_Z 1700000000000) _ _
                eq_refl eq_refl eq_refl eq_refl)
      as (newLoc & w' & Hrun & Hlocs & _ & _ & _ & _ & _ & Htrim).
    destruct (Htrim "  Pier   " eq_refl eq_refl) as (t' & Ht' & Htr).
    exists newLoc, w', t'. split; [exact Hrun|]. split; [exact Hlocs|].
    split; [exact Ht' | exact Htr].
Defined.

(** Startup on an empty storage and on a text that is not JSON *)
Lemma startup_falls_back_to_defaults_sample :
  (exists w, mount [] = (Normal tt, w) /\ locations w = [] /\
             isCollecting w = VBool true /\ showList w = VBool true) /\
  (exists w, mount [(STORAGE_KEY, JSON.Malformed)] = (Normal tt, w) /\
             locations w = [] /\
             isCollecting w = VBool true /\ showList w = VBool true /\
             alerts w = []).
Proof.
  split.
  - destruct (Persistence.startup_falls_back_to_defaults [] (or_introl eq_refl))
      as (w & Hm & Hl & Hc & Hs & _).
    exists w. now repeat split.
  - assert (H : exists raw, getItem [(STORAGE_KEY, JSON.Malformed)] STORAGE_KEY = Some raw /\
                            forall v, JSON.parse raw <> Normal v).
    { exists JSON.Malformed. split; [reflexivity | discriminate]. }
    destruct (Persistence.startup_falls_back_to_defaults _ (or_intror H))
      as (w & Hm & Hl & Hc & Hs & _ & Ha & _).
    exists w. now repeat split.
Defined.

(** The service answers Jersey City; the city of the enrichment is the
    one of the address. *)
Lemma city_falls_back_on_truthy_sample :
  exists meta w',
    enrichWithReverseGeocode service (VNum (of_Z 40)) (VNum (of_Z (-74))) (initial [])
      = (Normal meta, w') /\
    own meta "city" = VStr "Jersey City".
Proof.
  destruct (Geocode.city_falls_back_on_truthy service
              (VNum (of_Z 40)) (VNum (of_Z (-74))) (initial []) _ eq_refl)
    as (meta & w' & Hrun & Hcity).
  exists meta, w'. split; [exact Hrun|].
  rewrite Hcity. reflexivity.
Defined.

(** The address has a city, the empty string, and a town: the first of
    the four fields that is present is the city, yet the enrichment
    takes the town. *)
Lemma city_is_not_the_first_present :
  exists meta w',
    enrichWithReverseGeocode (fun _ _ => Responds springfield)
      (VNum (of_Z 40)) (VNum (of_Z (-74))) (initial []) = (Normal meta, w') /\
    first_present (opt_member (JSON.revive
       (JSON.JObj [("address", JSON.JObj [("city", JSON.JStr "");
                                          ("town", JSON.JStr "Springfield")])]))
       "address") = VStr "" /\
    own meta "city" = VStr "Springfield" /\
    own meta "city" <>
      first_present (opt_member (JSON.revive
       (JSON.JObj [("address", JSON.JObj [("city", JSON.JStr "");
                                          ("town", JSON.JStr "Springfield")])]))
       "address").
Proof.
  eexists _, _. split; [reflexivity|]. split; [reflexivity|].
  split; [reflexivity|]. discriminate.
Qed.

(** An edit of the first of two places *)
Lemma saveEdit_touches_one_place_sample :
  exists w',
    saveEdit service (with_draft [place "id-1" "Home"; place "id-2" "Work"] (editing "id-1"))
      = (Normal tt, w') /\
    length (locations w') = 2 /\
    (exists l', nth_error (locations w') 0 = Some l' /\
                own l' "title" = VStr "Moved" /\ own l' "id" = VStr "id-1") /\
    nth_error (locations w') 1 = Some (place "id-2" "Work").
Proof.
  destruct (Editing.saveEdit_touches_one_place service
              (with_draft [place "id-1" "Home"; place "id-2" "Work"] (editing "id-1"))
              (editing "id-1") "id-1" eq_refl eq_refl)
    as (meta & wm & w' & _ & Hrun & Hlen & Hnth).
  - discriminate.
  - repeat constructor.
  - exists w'. split; [exact Hrun|]. split; [exact Hlen|]. split.
    + destruct (Hnth 0 (place "id-1" "Home") eq_refl) as (l' & Hl' & Hsame & _).
      exists l'. split; [exact Hl'|].
      destruct (Hsame eq_refl) as (_ & _ & Ht & _ & _ & Hid & _).
      split; [exact Ht | exact Hid].
    + destruct (Hnth 1 (place "id-2" "Work") eq_refl) as (l' & Hl' & _ & Hother).
      rewrite Hl'. f_equal. apply Hother. discriminate.
Defined.

(** A persisted document that holds the places only *)
Lemma startup_missing_flag_is_false_sample :
  exists w,
    mount [(STORAGE_KEY, JSON.Doc (JSON.JObj [("locations", JSON.JArr [])]))]
      = (Normal tt, w) /\
    isCollecting w = VBool false /\ showList w = VBool false.
Proof.
  destruct (Persistence.startup_missing_flag_is_false
              [(STORAGE_KEY, JSON.Doc (JSON.JObj [("locations", JSON.JArr [])]))]
              (JSON.JObj [("locations", JSON.JArr [])]) [] eq_refl eq_refl)
    as (w & Hm & _ & Hc & Hs).
  exists w. split; [exact Hm|]. split; [apply Hc | apply Hs]; reflexivity.
Defined.

(** *** A few runs of the code *)

Example trim_title : trim "  Lived here 2019  " = "Lived here 2019".
Proof. reflexivity. Qed.

Example blank_title : blank (String (ascii_of_nat 9) " ") = true.
Proof. reflexivity. Qed.

Example export_of_a_place :
  exported [VObj [("id", VStr "id-1"); ("lat", VNum (S754_zero true));
                  ("meta", VObj [("city", VUndefined); ("country", VStr "USA")])]]
  = JSON.Doc (JSON.JArr [JSON.JObj
      [("id", JSON.JStr "id-1"); ("lat", JSON.JNum (S754_zero false));
       ("meta", JSON.JObj [("country", JSON.JStr "USA")])]]).
Proof. reflexivity. Qed.

(** No network: the place is added all the same, untitled and with an
    empty enrichment, and the failure is in the console only. *)
Example add_offline :
  exists newLoc w',
    dispatch (fun _ _ => Rejects) (Add "id-1" (of_Z 1)) (with_draft [] clicked)
      = (Normal tt, w') /\
    locations w' = [newLoc] /\
    own newLoc "title" = VStr "Untitled place" /\
    own newLoc "meta" = VObj [] /\
    alerts w' = [] /\
    console w' = ["Reverse geocode failed"].
Proof.
  eexists _, _. split; [reflexivity|]. now repeat split.
Qed.

(** Removing an id that no place has changes nothing. *)
Example delete_unknown :
  delete_updater (VStr "id-9") [place "id-1" "Home"; place "id-2" "Work"]
  = Normal [place "id-1" "Home"; place "id-2" "Work"].
Proof. reflexivity. Qed.

(** One place was persisted; the user resets and confirms. The handler
    empties the key, the commit fills it again. *)
Example reset_then_storage :
  let stored := JSON.text_of (JSON.stringify
                  (VObj [("locations", VArr [place "id-1" "Home"]);
                         ("isCollecting", VBool true);
                         ("showList", VBool true)])) in
  let w := mkWorld [place "id-1" "Home"] (VBool true) (VBool true) None false
                   [(STORAGE_KEY, stored)] [] [] [] false in
  getItem (localStorage (snd (handleReset true w))) STORAGE_KEY = None /\
  getItem (localStorage (snd (dispatch service (Reset true) w))) STORAGE_KEY
    = Some default_document /\
  snd (dispatch service (Reset false) w) = w.
Proof. repeat split. Qed.

End Samples.

(** ** Storage in step with the state *)

Module Storage.
Import JS App Contract JSFacts Geocode Persistence RoundTrip.

Lemma SFeqb_finite_eq s m e s' m' e' :
  SFeqb (S754_finite s m e) (S754_finite s' m' e') = true ->
  S754_finite s m e = S754_finite s' m' e'.
Proof.
  unfold SFeqb, SFcompare.
  destruct s, s'; try discriminate;
    destruct (Z.compare e e') eqn:Ee; try discriminate;
    destruct (Pos.compare_cont Eq m m') eqn:Em; try discriminate;
    intros _; apply Z.compare_eq in Ee; apply Pos.compare_eq in Em;
    now subst.
Qed.

(** [Object.is] holds of equal primitives only. *)
Lemma Object_is_true a b : Object_is a b = true -> a = b.
Proof.
  destruct a, b; simpl; try discriminate; try reflexivity.
  - intros H. apply Bool.eqb_prop in H. now subst.
  - destruct n as [s|s| |s m e], n0 as [s'|s'| |s' m' e'];
      simpl; try discriminate; try reflexivity; intros H;
      try (apply Bool.eqb_prop in H; now subst);
      try (f_equal; now apply SFeqb_finite_eq);
      unfold SFeqb in H; simpl in H;
      destruct s, s'; try discriminate; reflexivity.
  - intros H. apply String.eqb_eq in H. now subst.
Qed.

Lemma commit_synced w :
  persist_due w = true \/ synced w -> synced (snd (commit w)).
Proof.
  destruct w as [l c s d lm ls al co dl due].
  unfold commit, synced. cbn [persist_due].
  intros [-> | [Hdue Hst]].
  - split; reflexivity.
  - cbn [persist_due] in Hdue. subst due. cbn. split; [reflexivity | exact Hst].
Qed.

Section Events.

Variable fetch : value -> value -> response.

Lemma handler_due_or_synced ev w r w1 :
  synced w ->
  handler fetch ev w = (r, w1) ->
  persist_due w1 = true \/ synced w1.
Proof.
  destruct w as [l c s d lm ls al co dl due].
  intros [Hdue Hst] H.
  cbn [persist_due localStorage locations isCollecting showList] in Hdue, Hst.
  subst due.
  assert (Hsame : forall d' lm' al' co' dl',
            synced (mkWorld l c s d' lm' ls al' co' dl' false))
    by (intros; split; [reflexivity | exact Hst]).
  assert (Hend : forall (r' : completion unit) w',
            (r', w') = (r, w1) ->
            persist_due w' = true \/ synced w' ->
            persist_due w1 = true \/ synced w1)
    by (intros r' w' E; injection E as _ <-; trivial).
  destruct ev; cbn [handler] in H.
  - unfold click in H. cbn [isCollecting] in H.
    destruct (truthy c); apply (Hend _ _ H); right; apply Hsame.
  - unfold editTitle in H. cbn [draft] in H.
    destruct d; apply (Hend _ _ H); right; apply Hsame.
  - unfold editNotes in H. cbn [draft] in H.
    destruct d; apply (Hend _ _ H); right; apply Hsame.
  - apply (Hend _ _ H). right. apply Hsame.
  - unfold addDraftToLocations in H. cbn [draft] in H.
    destruct d as [d|]; [|apply (Hend _ _ H); right; apply Hsame].
    unfold bind at 1 in H. rewrite enrich_run in H. cbn [after_lookup] in H.
    unfold bind at 1, lift at 1 in H.
    destruct (newLocation d _ uuid now) as [newLoc|e]; apply (Hend _ _ H);
      [left; reflexivity | right; apply Hsame].
  - unfold deleteLocation, updateLocations, bind, lift in H. cbn [locations] in H.
    destruct (delete_updater id l) as [next|e]; apply (Hend _ _ H);
      [left; reflexivity | right; apply Hsame].
  - unfold startEdit, bind, lift in H. cbn [locations] in H.
    destruct (find_by_id id l) as [[x|]|e];
      try (apply (Hend _ _ H); right; apply Hsame).
    destruct (truthy x); apply (Hend _ _ H); right; apply Hsame.
  - unfold saveEdit in H. cbn [draft] in H.
    destruct d as [d|]; [|apply (Hend _ _ H); right; apply Hsame].
    destruct (truthy (d_id d)); [|apply (Hend _ _ H); right; apply Hsame].
    cbn [negb] in H.
    unfold bind at 1 in H. rewrite enrich_run in H. cbn [after_lookup] in H.
    unfold bind at 1, updateLocations at 1, bind at 1, lift at 1 in H.
    cbn [locations] in H.
    destruct (save_updater d _ l) as [next|e]; apply (Hend _ _ H);
      [left; reflexivity | right; apply Hsame].
  - apply (Hend _ _ H). cbn [persist_due orb].
    destruct (Object_is c (VBool false)) eqn:Ec;
      destruct (Object_is s (VBool false)) eqn:Es; try (left; reflexivity).
    apply Object_is_true in Ec, Es. subst c s. right. apply Hsame.
  - apply (Hend _ _ H). cbn [persist_due orb showList].
    destruct (Object_is s (VBool (negb (truthy s)))) eqn:Es; [|left; reflexivity].
    apply Object_is_true in Es. right. rewrite <- Es. apply Hsame.
  - destruct confirmed; apply (Hend _ _ H);
      [left; reflexivity | right; apply Hsame].
  - apply (Hend _ _ H). right. apply Hsame.
  - destruct file as [t|]; [|apply (Hend _ _ H); right; apply Hsame].
    destruct t as [| |j]; try (apply (Hend _ _ H); right; apply Hsame).
    unfold onUploadFile, try_catch, bind at 1, lift in H. cbn [JSON.parse] in H.
    destruct (JSON.revive j); apply (Hend _ _ H);
      try (right; apply Hsame).
    left. reflexivity.
Qed.

(** Whatever the event (and whether or not its handler throws), when
    the state its handler leaves can be drawn, once the event is over
    the key holds the text of [locations], [isCollecting] and
    [showList] as they now are, and nothing else: the draft and the
    loading flag are never written. *)
Theorem dispatch_keeps_synced ev w :
  synced w ->
  drawable (snd (handler fetch ev w)) = true ->
  synced (snd (dispatch fetch ev w)).
Proof.
  intros Hs _. unfold dispatch.
  destruct (handler fetch ev w) as [r w1] eqn:H.
  pose proof (commit_synced w1 (handler_due_or_synced ev w r w1 Hs H)) as Hc.
  destruct (commit w1) as [r' w2]. exact Hc.
Qed.

End Events.

Lemma load_effect_cases ls :
  load_effect (initial ls) = (Normal tt, initial ls) \/
  exists items c s,
    load_effect (initial ls)
      = (Normal tt, mkWorld items c s None false ls [] [] [] true).
Proof.
  unfold load_effect. cbn [localStorage initial].
  destruct (getItem ls STORAGE_KEY) as [[| |j]|]; try (left; reflexivity).
  cbn [nonempty]. unfold try_catch.
  unfold bind at 1. unfold lift at 1. cbn [JSON.parse].
  destruct (JSON.revive j) as [| | | | | |ps]; try (left; reflexivity).
  unfold opt_member. cbn [nullish own].
  destruct (lookup ps "locations") as [| | | | |items|] eqn:E;
    try (left; reflexivity).
  right. unfold bind, lift. cbn [member own]. rewrite E.
  eexists _, _, _. reflexivity.
Qed.

(** Startup leaves the key holding the text of the cells it ends with,
    whatever the storage held, when the places it ends with can be
    drawn: a document that was loaded is written back as the three
    cells, anything else is replaced by the document of the defaults. *)
Theorem mount_synced ls :
  drawable (snd (mount ls)) = true -> synced (snd (mount ls)).
Proof.
  intros _. unfold mount. unfold bind at 1.
  destruct (load_effect_cases ls) as [E | (items & c & s & E)]; rewrite E;
    split; reflexivity.
Qed.

Lemma persisted_flags l c s :
  persisted l (VBool c) (VBool s)
  = JSON.Doc (JSON.JObj [("locations", JSON.JArr (map element l));
                         ("isCollecting", JSON.JBool c);
                         ("showList", JSON.JBool s)]).
Proof. reflexivity. Qed.

(** Closing and reopening the page: when the key is in step with the
    cells, the two flags are booleans and the places are values JSON can
    carry, startup on that storage ends with the same flags and with a
    place list equivalent to the one that was left. *)
Theorem reload_restores w c s :
  synced w ->
  isCollecting w = VBool c ->
  showList w = VBool s ->
  storable (VArr (locations w)) = true ->
  exists w',
    mount (localStorage w) = (Normal tt, w') /\
    Forall2 equiv (locations w) (locations w') /\
    isCollecting w' = VBool c /\
    showList w' = VBool s /\
    draft w' = None.
Proof.
  destruct w as [l c0 s0 d lm ls al co dl due].
  intros [_ Hst] Hc Hs Hstor.
  cbn [localStorage locations isCollecting showList] in *. subst c0 s0.
  rewrite persisted_flags in Hst.
  pose proof (load_effect_document ls _
                [("locations", VArr (map JSON.revive (map element l)));
                 ("isCollecting", VBool c); ("showList", VBool s)]
                (map JSON.revive (map element l)) Hst eq_refl eq_refl) as Hload.
  unfold mount. unfold bind at 1. rewrite Hload.
  eexists. split; [reflexivity|].
  cbn [locations isCollecting showList draft].
  split; [|now repeat split].
  apply equiv_array_inv.
  exact (storable_reads_back (VArr l) Hstor).
Qed.

(** A confirmed reset followed by a reload starts from the defaults:
    no place, collecting, list shown, no draft. *)
Theorem reset_then_reload_defaults (fetch : value -> value -> response) w :
  exists w1 w',
    dispatch fetch (Reset true) w = (Normal tt, w1) /\
    mount (localStorage w1) = (Normal tt, w') /\
    locations w' = [] /\
    isCollecting w' = VBool true /\
    showList w' = VBool true /\
    draft w' = None.
Proof.
  destruct w as [l c s d lm ls al co dl due].
  eexists _, _. split; [reflexivity|].
  cbn [localStorage]. split; [reflexivity|]. now repeat split.
Qed.

End Storage.

(** ** Exported documents *)

Module Documents.
Import JS App Contract JSFacts Persistence RoundTrip.

Lemma fst_revived ms : map fst (revived ms) = map fst ms.
Proof.
  unfold revived. rewrite map_map. now apply map_ext.
Qed.

Lemma revive_distinct_members ms :
  distinct (map fst ms) = true ->
  JSON.revive (JSON.JObj ms) = VObj (revived ms).
Proof.
  intros Hd. rewrite revive_object.
  rewrite fold_read_distinct; [reflexivity | now rewrite fst_revived | reflexivity].
Qed.

Lemma elements_of_revived l :
  Forall (fun j => canonical j = true ->
                   JSON.serialize (JSON.revive j) = Some j) l ->
  forallb canonical l = true ->
  map element (map JSON.revive l) = l.
Proof.
  induction 1 as [|x r Hx Hr IH]; simpl; intros Hc; [reflexivity|].
  apply andb_true_iff in Hc as [Hcx Hcr].
  unfold element at 1. rewrite (Hx Hcx). now rewrite IH.
Qed.

Lemma members_of_revived ms :
  Forall (fun m => canonical (snd m) = true ->
                   JSON.serialize (JSON.revive (snd m)) = Some (snd m)) ms ->
  forallb (fun m => canonical (snd m)) ms = true ->
  flat_map member_of (revived ms) = ms.
Proof.
  induction 1 as [|[k x] r Hx Hr IH]; simpl; intros Hc; [reflexivity|].
  apply andb_true_iff in Hc as [Hcx Hcr].
  unfold member_of at 1. simpl in *. rewrite (Hx Hcx). simpl.
  f_equal. now apply IH.
Qed.

(** A canonical document is written back as itself. *)
Lemma canonical_written_back j :
  canonical j = true -> JSON.serialize (JSON.revive j) = Some j.
Proof.
  induction j as [| b | n | s | l IH | ms IH] using json_ind; intros Hc;
    try reflexivity.
  - simpl in *. destruct n as [[]| | |]; try discriminate Hc; reflexivity.
  - simpl in Hc. simpl JSON.revive. rewrite serialize_array.
    now rewrite (elements_of_revived l IH Hc).
  - simpl in Hc. apply andb_true_iff in Hc as [Hd Hc].
    rewrite (revive_distinct_members ms Hd), serialize_object.
    now rewrite (members_of_revived ms IH Hc).
Qed.

Lemma canonical_members ps :
  Forall (fun p => well_formed (snd p) = true ->
                   forall j, JSON.serialize (snd p) = Some j ->
                             canonical j = true) ps ->
  forallb (fun p => well_formed (snd p)) ps = true ->
  forallb (fun m => canonical (snd m)) (flat_map member_of ps) = true.
Proof.
  induction 1 as [|[k e] r He Hr IH]; simpl; intros Hw; [reflexivity|].
  apply andb_true_iff in Hw as [Hwe Hwr].
  unfold member_of at 1. simpl in *.
  destruct (JSON.serialize e) as [j|] eqn:E; simpl.
  - rewrite (He Hwe j eq_refl). now apply IH.
  - now apply IH.
Qed.

(** What is written of a well-formed value is canonical. *)
Lemma written_canonical v :
  well_formed v = true ->
  forall j, JSON.serialize v = Some j -> canonical j = true.
Proof.
  induction v as [| | b | n | s | l IH | ps IH] using value_ind;
    intros Hw j Hj; simpl in Hj; try discriminate Hj;
    injection Hj as <-; try reflexivity.
  - now destruct n as [[]|[]| |].
  - simpl in *. induction IH as [|e r He Hr IHr]; simpl; [reflexivity|].
    simpl in Hw. apply andb_true_iff in Hw as [Hwe Hwr].
    rewrite (IHr Hwr), andb_true_r.
    destruct (JSON.serialize e) as [j|] eqn:E; [|reflexivity].
    now apply He.
  - simpl in Hw. apply andb_true_iff in Hw as [Hd Hw].
    change (canonical (JSON.JObj (flat_map member_of ps)) = true).
    simpl. rewrite <- fst_revived, (distinct_members ps Hd). simpl.
    now apply canonical_members.
Qed.

Lemma canonical_elements l :
  forallb well_formed l = true -> forallb canonical (map element l) = true.
Proof.
  induction l as [|e r IH]; simpl; intros Hw; [reflexivity|].
  apply andb_true_iff in Hw as [Hwe Hwr].
  rewrite (IH Hwr), andb_true_r. unfold element.
  destruct (JSON.serialize e) as [j|] eqn:E; [|reflexivity].
  now apply (written_canonical e Hwe).
Qed.

Lemma exported_array locs :
  exported locs = JSON.Doc (JSON.JArr (map element locs)).
Proof. reflexivity. Qed.

(** Whatever the places are, the export is a JSON array with one entry
    per place, and its import is accepted: no alert, a list of the same
    length, collecting off and list hidden. *)
Theorem export_is_always_importable locs w0 :
  exists js w2,
    exported locs = JSON.Doc (JSON.JArr js) /\
    length js = length locs /\
    onUploadFile (Some (exported locs)) w0 = (Normal tt, w2) /\
    locations w2 = trip locs /\
    length (locations w2) = length locs /\
    alerts w2 = alerts w0 /\
    isCollecting w2 = VBool false /\
    showList w2 = VBool false.
Proof.
  destruct w0 as [l c s d lm ls al co dl due].
  exists (map element locs). eexists.
  split; [reflexivity|]. split; [apply length_map|].
  split; [reflexivity|]. cbn [locations alerts isCollecting showList].
  split; [reflexivity|]. split; [|now repeat split].
  unfold trip. now rewrite !length_map.
Qed.

(** What the round trip loses, it loses once: for places whose objects
    have one property per name, the list an import of the export sets is
    exported as the very same document, and a second round trip sets the
    very same list. *)
Theorem round_trip_settles locs :
  well_formed (VArr locs) = true ->
  exported (trip locs) = exported locs /\
  trip (trip locs) = trip locs.
Proof.
  intros Hw. simpl in Hw.
  assert (E : map element (trip locs) = map element locs).
  { unfold trip. apply elements_of_revived; [|now apply canonical_elements].
    apply Forall_forall. intros j _. apply canonical_written_back. }
  split.
  - now rewrite !exported_array, E.
  - unfold trip at 1. now rewrite E.
Qed.

(** The other way round: a file that holds an array of places as the
    export writes them (finite numbers, no negative zero, one member per
    name, no name made of digits only) is, once imported, exported as
    the very same document. *)
Theorem import_then_export js w0 :
  canonical (JSON.JArr js) = true ->
  plain_names (JSON.JArr js) = true ->
  forallb is_Location (map JSON.revive js) = true ->
  exists w2,
    onUploadFile (Some (JSON.Doc (JSON.JArr js))) w0 = (Normal tt, w2) /\
    locations w2 = map JSON.revive js /\
    exported (locations w2) = JSON.Doc (JSON.JArr js).
Proof.
  intros Hc _ _. simpl in Hc.
  destruct w0 as [l c s d lm ls al co dl due].
  eexists. split; [reflexivity|]. cbn [locations].
  split; [reflexivity|].
  rewrite exported_array. do 2 f_equal.
  apply elements_of_revived; [|exact Hc].
  apply Forall_forall. intros j _. apply canonical_written_back.
Qed.

End Documents.

(** ** Removing and saving by id *)

Module ById.
Import JS App Contract JSFacts PlaceList Geocode Editing Persistence.

Lemma delete_updater_filter id prev :
  no_nullish prev ->
  delete_updater id prev = Normal (filter (fun l => negb (has_id id l)) prev).
Proof.
  induction 1 as [|l r Hl Hr IH]; [reflexivity|].
  unfold delete_updater in *. cbn [cfilter]. rewrite IH.
  unfold has_id, id_of. cbn [filter].
  destruct l; try discriminate Hl; cbn [member cbind];
    match goal with
    | |- context [strict_eq ?a id] => now destruct (strict_eq a id)
    end.
Qed.

Lemma delete_updater_throws id prev next :
  delete_updater id prev = Normal next -> no_nullish prev.
Proof.
  revert next. unfold delete_updater.
  induction prev as [|l r IH]; intros next H; [constructor|].
  cbn [cfilter] in H.
  destruct (member l "id") as [i|e] eqn:Em; [|discriminate H].
  cbn [cbind] in H.
  destruct (cfilter _ r) as [ys|e] eqn:Er; [|discriminate H].
  constructor; [|now apply (IH ys)].
  now destruct l.
Qed.

Lemma save_updater_throws d meta prev next :
  save_updater d meta prev = Normal next -> no_nullish prev.
Proof.
  revert next. unfold save_updater.
  induction prev as [|l r IH]; intros next H; [constructor|].
  cbn [cmap] in H.
  destruct (member l "id") as [i|e] eqn:Em; [|discriminate H].
  cbn [cbind] in H.
  destruct (cmap _ r) as [ys|e] eqn:Er; [|discriminate H].
  constructor; [|now apply (IH ys)].
  now destruct l.
Qed.

(** The two updaters that read [l.id] go through exactly when no element
    of the list is [null] or [undefined]; on any other list they throw,
    and an import accepts such a list. *)
Theorem updaters_need_objects id d meta prev :
  ((exists next, delete_updater id prev = Normal next) <-> no_nullish prev) /\
  ((exists next, save_updater d meta prev = Normal next) <-> no_nullish prev).
Proof.
  split; split.
  - intros [next H]. now apply (delete_updater_throws id prev next).
  - intros H. eexists. now apply delete_updater_filter.
  - intros [next H]. now apply (save_updater_throws d meta prev next).
  - intros H. eexists. now apply save_updater_map.
Qed.

Lemma filter_none_matching id (l : list value) :
  Forall (fun x => has_id id x = false) l ->
  filter (fun x => negb (has_id id x)) l = l.
Proof.
  induction 1 as [|x r Hx Hr IH]; simpl; [reflexivity|].
  now rewrite Hx, IH.
Qed.

Lemma filtered_none_matching id (l : list value) :
  Forall (fun x => has_id id x = false) (filter (fun x => negb (has_id id x)) l).
Proof.
  apply Forall_forall. intros x Hin. apply filter_In in Hin as [_ H].
  now apply negb_true_iff in H.
Qed.

Lemma no_nullish_filter (p : value -> bool) l :
  no_nullish l -> no_nullish (filter p l).
Proof.
  unfold no_nullish. rewrite !Forall_forall. intros H x Hin.
  apply filter_In in Hin as [Hin _]. auto.
Qed.

Section Events.

Variable fetch : value -> value -> response.

Lemma deleteLocation_run id w :
  no_nullish (locations w) ->
  exists w1,
    deleteLocation id w = (Normal tt, w1) /\
    locations w1 = filter (fun l => negb (has_id id l)) (locations w) /\
    isCollecting w1 = isCollecting w /\
    showList w1 = showList w /\
    draft w1 = draft w /\
    alerts w1 = alerts w.
Proof.
  intros Hn. destruct w as [l c s d lm ls al co dl due].
  cbn [locations] in *.
  unfold deleteLocation, updateLocations, bind, lift. cbn [locations].
  rewrite (delete_updater_filter id l Hn).
  eexists. split; [reflexivity|]. now repeat split.
Qed.

(** For a string, having the id and reading it are the same. *)
Lemma other_ids i (l : list value) :
  Forall (fun x => has_id (VStr i) x = false) l <->
  Forall (fun x => id_of x <> VStr i) l.
Proof.
  split; apply Forall_impl; intros x H.
  - intros E. unfold has_id in H.
    now rewrite (proj2 (strict_eq_string (id_of x) i) E) in H.
  - unfold has_id. destruct (strict_eq (id_of x) (VStr i)) eqn:E; [|reflexivity].
    apply strict_eq_string in E. now destruct H.
Qed.

Lemma delete_dispatch id w :
  no_nullish (locations w) ->
  exists w',
    dispatch fetch (Delete id) w = (Normal tt, w') /\
    locations w' = filter (fun l => negb (has_id id l)) (locations w) /\
    isCollecting w' = isCollecting w /\
    showList w' = showList w /\
    draft w' = draft w.
Proof.
  intros Hn.
  destruct (deleteLocation_run id w Hn) as (w1 & Hrun & Hl & Hc & Hs & Hd & _).
  destruct (dispatch_cells fetch (Delete id) w (Normal tt) w1 Hrun)
    as (w' & Hdis & Hl' & Hc' & Hs' & Hd' & _).
  exists w'. split; [exact Hdis|].
  now rewrite Hl', Hc', Hs', Hd', Hl, Hc, Hs, Hd.
Qed.

Lemma save_dispatch w d :
  draft w = Some d ->
  truthy (d_id d) = true ->
  no_nullish (locations w) ->
  exists w',
    dispatch fetch Save w = (Normal tt, w') /\
    locations w' =
      map (fun l => if strict_eq (own l "id") (d_id d)
                    then overwrite l d (enrichment (fetch (d_lat d) (d_lng d)))
                    else l) (locations w) /\
    draft w' = None /\
    isCollecting w' = isCollecting w /\
    showList w' = showList w.
Proof.
  intros Hd Hid Hn.
  destruct (saveEdit_run fetch w d Hd Hid Hn) as (w1 & Hrun & Hl & Hdr & Hc & Hs).
  destruct (dispatch_cells fetch Save w (Normal tt) w1 Hrun)
    as (w' & Hdis & Hl' & Hc' & Hs' & Hd' & _).
  exists w'. split; [exact Hdis|].
  now rewrite Hl', Hc', Hs', Hd', Hl, Hdr, Hc, Hs.
Qed.

Lemma map_none_matching (d : Draft) meta (l : list value) :
  Forall (fun x => has_id (d_id d) x = false) l ->
  map (fun x => if strict_eq (own x "id") (d_id d)
                then overwrite x d meta else x) l = l.
Proof.
  induction 1 as [|x r Hx Hr IH]; simpl; [reflexivity|].
  unfold has_id, id_of in Hx. now rewrite Hx, IH.
Qed.

(** On a list without [null] or [undefined], the delete of an id (a
    string) removes every place whose id is that one and keeps the
    others as they are and in their order; a second delete of the same
    id, or the delete of an id that no place has, changes nothing. The
    flags stay, and so does an open draft, even one that edits the place
    removed. *)
Theorem delete_removes_by_id i w :
  no_nullish (locations w) ->
  exists w',
    dispatch fetch (Delete (VStr i)) w = (Normal tt, w') /\
    locations w' = filter (fun l => negb (has_id (VStr i) l)) (locations w) /\
    Forall (fun l => id_of l <> VStr i) (locations w') /\
    delete_updater (VStr i) (locations w') = Normal (locations w') /\
    (Forall (fun l => id_of l <> VStr i) (locations w) ->
     locations w' = locations w) /\
    isCollecting w' = isCollecting w /\
    showList w' = showList w /\
    draft w' = draft w.
Proof.
  intros Hn.
  destruct (delete_dispatch (VStr i) w Hn) as (w' & Hdis & Hl & Hc & Hs & Hd).
  exists w'. split; [exact Hdis|].
  rewrite Hl, Hc, Hs, Hd.
  split; [reflexivity|].
  split; [apply other_ids, filtered_none_matching|].
  split.
  - rewrite delete_updater_filter by now apply no_nullish_filter.
    f_equal. apply filter_none_matching, filtered_none_matching.
  - split; [|now repeat split].
    intros H. now apply filter_none_matching, other_ids.
Qed.


(** A place removed while the panel edits it does not come back with
    Save: after the delete and the save the list is the old one without
    the places of that id. *)
Theorem delete_then_save w d i :
  draft w = Some d ->
  d_id d = VStr i ->
  i <> "" ->
  no_nullish (locations w) ->
  exists w1 w2,
    dispatch fetch (Delete (VStr i)) w = (Normal tt, w1) /\
    dispatch fetch Save w1 = (Normal tt, w2) /\
    locations w2 = filter (fun l => negb (has_id (VStr i) l)) (locations w) /\
    Forall (fun l => id_of l <> VStr i) (locations w2) /\
    draft w2 = None.
Proof.
  intros Hd Hid Hne Hn.
  destruct (delete_dispatch (VStr i) w Hn) as (w1 & Hdis & Hl & _ & _ & Hdr).
  assert (Ht : truthy (d_id d) = true)
    by (rewrite Hid; now apply truthy_nonempty).
  assert (Hd1 : draft w1 = Some d) by now rewrite Hdr.
  assert (Hn1 : no_nullish (locations w1))
    by (rewrite Hl; now apply no_nullish_filter).
  assert (Hnone : Forall (fun l => has_id (d_id d) l = false) (locations w1))
    by (rewrite Hl, Hid; apply filtered_none_matching).
  destruct (save_dispatch w1 d Hd1 Ht Hn1) as (w2 & Hdis2 & Hl2 & Hdr2 & _).
  rewrite (map_none_matching d _ _ Hnone) in Hl2.
  exists w1, w2. split; [exact Hdis|]. split; [exact Hdis2|].
  rewrite Hl2. split; [exact Hl|]. split; [|exact Hdr2].
  rewrite Hid in Hnone. revert Hnone. apply Forall_impl.
  intros l Hl0 E. unfold has_id in Hl0.
  now rewrite (proj2 (strict_eq_string (id_of l) i) E) in Hl0.
Qed.

End Events.

End ById.

(** ** Handlers one after the other *)

Module Flows.
Import JS App Contract JSFacts PlaceList Geocode Editing Persistence ById.

Lemma NoDup_ids_inj locs x y :
  NoDup (ids locs) -> In x locs -> In y locs -> id_of x = id_of y -> x = y.
Proof.
  induction locs as [|l r IH]; simpl; intros Hnd Hx Hy E; [easy|].
  inversion Hnd as [|i rest Hnot Hnd']; subst.
  destruct Hx as [<- | Hx], Hy as [<- | Hy]; auto.
  - destruct Hnot. rewrite E. now apply in_map.
  - destruct Hnot. rewrite <- E. now apply in_map.
Qed.

Lemma find_by_id_first id l x :
  no_nullish l -> In x l -> has_id id x = true ->
  exists x0, find_by_id id l = Normal (Some x0) /\ In x0 l /\ has_id id x0 = true.
Proof.
  induction 1 as [|y r Hy Hr IH]; simpl; intros Hin Hx; [easy|].
  assert (Em : member y "id" = Normal (own y "id")) by now destruct y.
  rewrite Em. cbn [cbind].
  destruct (strict_eq (own y "id") id) eqn:E.
  - exists y. auto.
  - destruct Hin as [-> | Hin].
    + unfold has_id, id_of in Hx. now rewrite Hx in E.
    + destruct (IH Hin Hx) as (x0 & Hf & Hin0 & H0). exists x0. auto.
Qed.

Section Events.

Variable fetch : value -> value -> response.

Lemma startEdit_dispatch id w loc :
  find_by_id id (locations w) = Normal (Some loc) ->
  truthy loc = true ->
  exists w',
    dispatch fetch (StartEdit id) w = (Normal tt, w') /\
    draft w' = Some (mkDraft (own loc "lat") (own loc "lng")
                             (own loc "title") (own loc "notes") (own loc "id")) /\
    locations w' = locations w /\
    isCollecting w' = isCollecting w /\
    showList w' = showList w.
Proof.
  intros Hf Ht.
  assert (Hrun : exists w1,
             handler fetch (StartEdit id) w = (Normal tt, w1) /\
             draft w1 = Some (mkDraft (own loc "lat") (own loc "lng")
                                (own loc "title") (own loc "notes") (own loc "id")) /\
             locations w1 = locations w /\
             isCollecting w1 = isCollecting w /\
             showList w1 = showList w).
  { destruct w as [l c s d lm ls al co dl due]. cbn [locations] in Hf.
    cbn [handler]. unfold startEdit, bind, lift. cbn [locations].
    rewrite Hf, Ht. cbn [negb].
    eexists. split; [reflexivity|]. now repeat split. }
  destruct Hrun as (w1 & Hrun & Hd & Hl & Hc & Hs).
  destruct (dispatch_cells fetch _ w _ w1 Hrun)
    as (w' & Hdis & Hl' & Hc' & Hs' & Hd' & _).
  exists w'. split; [exact Hdis|].
  now rewrite Hl', Hc', Hs', Hd', Hd, Hl, Hc, Hs.
Qed.

(** Edit opened on a place and saved at once, on a list without [null]
    or [undefined] whose ids are all different: the list keeps its
    length, every place reads as before at every property but [meta],
    the places of another id are untouched, and the place edited has the
    meta of a new lookup at its own coordinates. *)
Theorem edit_then_save_unchanged w i l :
  no_nullish (locations w) ->
  NoDup (ids (locations w)) ->
  i <> "" ->
  In l (locations w) ->
  id_of l = VStr i ->
  exists w1 w2,
    dispatch fetch (StartEdit (VStr i)) w = (Normal tt, w1) /\
    dispatch fetch Save w1 = (Normal tt, w2) /\
    length (locations w2) = length (locations w) /\
    forall n x,
      nth_error (locations w) n = Some x ->
      exists x',
        nth_error (locations w2) n = Some x' /\
        (forall k, k <> "meta" -> own x' k = own x k) /\
        (id_of x <> VStr i -> x' = x) /\
        (id_of x = VStr i ->
         own x' "meta" = enrichment (fetch (own x "lat") (own x "lng"))).
Proof.
  intros Hn Hnd Hne Hin Hid.
  assert (Hl : has_id (VStr i) l = true)
    by (unfold has_id; now apply strict_eq_string).
  destruct (find_by_id_first (VStr i) _ l Hn Hin Hl) as (x0 & Hf & Hin0 & H0).
  assert (x0 = l) as ->.
  { apply (NoDup_ids_inj _ _ _ Hnd Hin0 Hin).
    unfold has_id in H0. apply strict_eq_string in H0. now rewrite H0, Hid. }
  assert (Ht : truthy l = true) by (destruct l; try discriminate Hid; reflexivity).
  destruct (startEdit_dispatch (VStr i) w l Hf Ht) as (w1 & Hdis1 & Hd1 & Hl1 & _).
  set (d := mkDraft (own l "lat") (own l "lng") (own l "title") (own l "notes")
                    (own l "id")) in *.
  assert (Hdid : d_id d = VStr i) by exact Hid.
  assert (Htid : truthy (d_id d) = true)
    by (rewrite Hdid; now apply truthy_nonempty).
  assert (Hn1 : no_nullish (locations w1)) by now rewrite Hl1.
  destruct (save_dispatch fetch w1 d Hd1 Htid Hn1) as (w2 & Hdis2 & Hl2 & _).
  exists w1, w2. split; [exact Hdis1|]. split; [exact Hdis2|].
  rewrite Hl2, Hl1. split; [apply length_map|].
  intros n x Hx. rewrite nth_error_map, Hx. cbn [option_map].
  eexists. split; [reflexivity|]. rewrite Hdid.
  destruct (strict_eq (own x "id") (VStr i)) eqn:E.
  - apply strict_eq_string in E.
    assert (x = l) as ->.
    { apply (NoDup_ids_inj _ _ _ Hnd (nth_error_In _ _ Hx) Hin).
      unfold id_of. now rewrite E, <- Hid. }
    destruct l as [| | | | | |ps]; try discriminate Hid.
    destruct (overwrite_reads ps d (enrichment (fetch (d_lat d) (d_lng d))))
      as (H1 & H2 & H3 & H4 & H5 & H6).
    split; [|split; [intros Hno; now destruct Hno | intros _; exact H5]].
    intros k Hk.
    destruct (string_dec k "lat") as [-> | Nlat]; [exact H1|].
    destruct (string_dec k "lng") as [-> | Nlng]; [exact H2|].
    destruct (string_dec k "title") as [-> | Ntitle]; [exact H3|].
    destruct (string_dec k "notes") as [-> | Nnotes]; [exact H4|].
    apply H6. simpl. intros [H|[H|[H|[H|[H|[]]]]]]; congruence.
  - split; [reflexivity|]. split; [reflexivity|].
    intros Hx'. apply (proj2 (strict_eq_string _ i)) in Hx'.
    unfold id_of in Hx'. now rewrite Hx' in E.
Qed.

(** In collecting mode, a click on the map followed by Add, with
    nothing typed, puts first in the list a place at the clicked
    coordinates, with the id and the time drawn, empty notes, the meta
    of the lookup at those coordinates and its city for title
    ("Untitled place" when that city is falsy); the places that were
    there follow unchanged and the panel is closed. *)
Theorem click_then_add w lat lng uuid now :
  truthy (isCollecting w) = true ->
  exists w1 w2,
    dispatch fetch (Click lat lng) w = (Normal tt, w1) /\
    dispatch fetch (Add uuid now) w1 = (Normal tt, w2) /\
    locations w2 =
      VObj [("id", VStr uuid); ("lat", lat); ("lng", lng);
            ("title", or_else (own (enrichment (fetch lat lng)) "city")
                              (VStr "Untitled place"));
            ("notes", VStr "");
            ("createdAt", VNum now);
            ("meta", enrichment (fetch lat lng))] :: locations w /\
    draft w2 = None /\
    isCollecting w2 = isCollecting w /\
    showList w2 = showList w.
Proof.
  intros Hc.
  assert (Hrun : exists w1,
             handler fetch (Click lat lng) w = (Normal tt, w1) /\
             draft w1 = Some (mkDraft lat lng (VStr "") (VStr "") VUndefined) /\
             locations w1 = locations w /\
             isCollecting w1 = isCollecting w /\
             showList w1 = showList w).
  { destruct w as [l c s d lm ls al co dl due]. cbn [isCollecting] in Hc.
    cbn [handler]. unfold click. cbn [isCollecting]. rewrite Hc. cbn [negb].
    eexists. split; [reflexivity|]. now repeat split. }
  destruct Hrun as (w1h & Hrun & Hd & Hl & Hco & Hs).
  destruct (dispatch_cells fetch _ w _ w1h Hrun)
    as (w1 & Hdis1 & Hl1 & Hc1 & Hs1 & Hd1 & _).
  rewrite Hd in Hd1. rewrite Hl in Hl1. rewrite Hco in Hc1. rewrite Hs in Hs1.
  set (d := mkDraft lat lng (VStr "") (VStr "") VUndefined) in *.
  destruct (enrichment_is_object (fetch lat lng)) as [mp Hmp].
  pose proof (newLocation_strings d mp uuid now "" "" eq_refl eq_refl) as Hnew.
  rewrite <- Hmp in Hnew.
  destruct (addDraftToLocations_run fetch w1 d uuid now _ Hd1 Hnew)
    as (w2h & Hrun2 & Hl2 & Hd2 & Hc2 & Hs2 & _).
  destruct (dispatch_cells fetch (Add uuid now) w1 _ w2h Hrun2)
    as (w2 & Hdis2 & Hl3 & Hc3 & Hs3 & Hd3 & _).
  exists w1, w2. split; [exact Hdis1|]. split; [exact Hdis2|].
  rewrite Hl3, Hc3, Hs3, Hd3, Hl2, Hd2, Hc2, Hs2, Hl1, Hc1, Hs1.
  split; [|now repeat split].
  f_equal. rewrite Hmp. reflexivity.
Qed.

Lemma handler_keeps_off ev w r w1 :
  ev <> Reset true ->
  isCollecting w = VBool false ->
  handler fetch ev w = (r, w1) ->
  isCollecting w1 = VBool false.
Proof.
  destruct w as [l c s d lm ls al co dl due].
  intros Hev Hc H. cbn [isCollecting] in Hc. subst c.
  assert (Hend : forall (r' : completion unit) w',
            (r', w') = (r, w1) -> isCollecting w' = VBool false ->
            isCollecting w1 = VBool false)
    by (intros r' w' E; injection E as _ <-; trivial).
  destruct ev; cbn [handler] in H.
  - apply (Hend _ _ H). reflexivity.
  - unfold editTitle in H. cbn [draft] in H.
    destruct d; apply (Hend _ _ H); reflexivity.
  - unfold editNotes in H. cbn [draft] in H.
    destruct d; apply (Hend _ _ H); reflexivity.
  - apply (Hend _ _ H). reflexivity.
  - unfold addDraftToLocations in H. cbn [draft] in H.
    destruct d as [d|]; [|apply (Hend _ _ H); reflexivity].
    unfold bind at 1 in H. rewrite enrich_run in H. cbn [after_lookup] in H.
    unfold bind at 1, lift at 1 in H.
    destruct (newLocation d _ uuid now) as [newLoc|e]; apply (Hend _ _ H);
      reflexivity.
  - unfold deleteLocation, updateLocations, bind, lift in H. cbn [locations] in H.
    destruct (delete_updater id l) as [next|e]; apply (Hend _ _ H); reflexivity.
  - unfold startEdit, bind, lift in H. cbn [locations] in H.
    destruct (find_by_id id l) as [[x|]|e];
      try (apply (Hend _ _ H); reflexivity).
    destruct (truthy x); apply (Hend _ _ H); reflexivity.
  - unfold saveEdit in H. cbn [draft] in H.
    destruct d as [d|]; [|apply (Hend _ _ H); reflexivity].
    destruct (truthy (d_id d)); [|apply (Hend _ _ H); reflexivity].
    cbn [negb] in H.
    unfold bind at 1 in H. rewrite enrich_run in H. cbn [after_lookup] in H.
    unfold bind at 1, updateLocations at 1, bind at 1, lift at 1 in H.
    cbn [locations] in H.
    destruct (save_updater d _ l) as [next|e]; apply (Hend _ _ H); reflexivity.
  - apply (Hend _ _ H). reflexivity.
  - apply (Hend _ _ H). reflexivity.
  - destruct confirmed; [now destruct Hev | apply (Hend _ _ H); reflexivity].
  - apply (Hend _ _ H). reflexivity.
  - destruct file as [t|]; [|apply (Hend _ _ H); reflexivity].
    destruct t as [| |j]; try (apply (Hend _ _ H); reflexivity).
    unfold onUploadFile, try_catch, bind at 1, lift in H. cbn [JSON.parse] in H.
    destruct (JSON.revive j); apply (Hend _ _ H); reflexivity.
Qed.

(** Once collecting is off (after Done or an import), no event brings
    it back except a confirmed reset: through any other events the flag
    stays false, so a click on the map never opens a draft again. *)
Theorem collecting_stays_off w w' :
  isCollecting w = VBool false ->
  trace fetch (fun ev => ev <> Reset true) w w' ->
  isCollecting w' = VBool false /\
  forall lat lng, handler fetch (Click lat lng) w' = (Normal tt, w').
Proof.
  intros Hc Ht. induction Ht as [w | w ev w2 Hev _ IH].
  - split; [exact Hc|]. intros lat lng.
    destruct w as [l c s d lm ls al co dl due]. cbn [isCollecting] in Hc.
    subst c. reflexivity.
  - apply IH.
    destruct (handler fetch ev w) as [r w1] eqn:Hh.
    destruct (dispatch_cells fetch ev w r w1 Hh) as (w3 & Hd & _ & Hc3 & _).
    rewrite Hd. cbn [snd]. rewrite Hc3.
    now apply (handler_keeps_off ev w r w1).
Qed.

(** A click, a keystroke in the panel, Cancel, Edit and Export write
    nothing: with no write pending, the storage, the places, the two
    flags and the alerts are after the event what they were before,
    even when the handler throws. *)
Theorem local_events_write_nothing ev w :
  local ev = true ->
  persist_due w = false ->
  localStorage (snd (dispatch fetch ev w)) = localStorage w /\
  locations (snd (dispatch fetch ev w)) = locations w /\
  isCollecting (snd (dispatch fetch ev w)) = isCollecting w /\
  showList (snd (dispatch fetch ev w)) = showList w /\
  alerts (snd (dispatch fetch ev w)) = alerts w.
Proof.
  destruct w as [l c s d lm ls al co dl due].
  intros Hev Hdue. cbn [persist_due] in Hdue. subst due.
  unfold dispatch.
  destruct ev; try discriminate Hev; cbn [handler].
  - unfold click. cbn [isCollecting]. now destruct (truthy c).
  - unfold editTitle. cbn [draft]. now destruct d.
  - unfold editNotes. cbn [draft]. now destruct d.
  - now repeat split.
  - unfold startEdit, bind, lift. cbn [locations].
    destruct (find_by_id id l) as [[x|]|e]; try now repeat split.
    now destruct (truthy x).
  - now repeat split.
Qed.

End Events.

End Flows.

(** ** The flows on the sample data *)

Module Runs.
Import JS App Contract.

(** A toggle of the list, on the two places kept *)
Lemma dispatch_keeps_synced_sample :
  synced kept /\
  synced (snd (dispatch service ToggleList kept)) /\
  synced (snd (dispatch service (Delete (VStr "id-1")) kept)).
Proof.
  assert (H : synced kept) by (split; reflexivity).
  split; [exact H|]. split.
  - exact (Storage.dispatch_keeps_synced service ToggleList kept H eq_refl).
  - exact (Storage.dispatch_keeps_synced service (Delete (VStr "id-1")) kept H
             eq_refl).
Defined.

(** Startup on the storage of the two places kept, and on an empty one *)
Lemma mount_synced_sample :
  synced (snd (mount (localStorage kept))) /\ synced (snd (mount [])).
Proof.
  split.
  - exact (Storage.mount_synced (localStorage kept) eq_refl).
  - exact (Storage.mount_synced [] eq_refl).
Defined.

Lemma reload_restores_sample :
  exists w',
    mount (localStorage kept) = (Normal tt, w') /\
    Forall2 equiv (locations kept) (locations w') /\
    isCollecting w' = VBool false /\
    showList w' = VBool true.
Proof.
  destruct (Storage.reload_restores kept false true
              (conj eq_refl eq_refl) eq_refl eq_refl eq_refl)
    as (w' & Hm & Heq & Hc & Hs & _).
  exists w'. now repeat split.
Defined.

Lemma round_trip_settles_sample :
  exported (trip (locations kept)) = exported (locations kept) /\
  trip (trip (locations kept)) = trip (locations kept).
Proof.
  exact (Documents.round_trip_settles (locations kept) eq_refl).
Defined.

Lemma import_then_export_sample :
  exists w2,
    onUploadFile (Some (JSON.Doc (JSON.JArr two_entries))) kept = (Normal tt, w2) /\
    exported (locations w2) = JSON.Doc (JSON.JArr two_entries).
Proof.
  destruct (Documents.import_then_export two_entries kept
              eq_refl eq_refl eq_refl)
    as (w2 & Hup & _ & Hex).
  exists w2. split; [exact Hup | exact Hex].
Defined.

Lemma delete_removes_by_id_sample :
  exists w',
    dispatch service (Delete (VStr "id-1")) kept = (Normal tt, w') /\
    locations w' = [place "id-2" "Work"].
Proof.
  assert (Hn : no_nullish (locations kept)) by (repeat constructor).
  destruct (ById.delete_removes_by_id service "id-1" kept Hn)
    as (w' & Hd & Hl & _).
  exists w'. split; [exact Hd|]. rewrite Hl. reflexivity.
Defined.


Lemma delete_then_save_sample :
  exists w1 w2,
    dispatch service (Delete (VStr "id-1")) kept_editing = (Normal tt, w1) /\
    dispatch service Save w1 = (Normal tt, w2) /\
    locations w2 = [place "id-2" "Work"].
Proof.
  assert (Hn : no_nullish (locations kept_editing)) by (repeat constructor).
  assert (Hne : "id-1" <> "") by discriminate.
  destruct (ById.delete_then_save service kept_editing (editing "id-1") "id-1"
              eq_refl eq_refl Hne Hn)
    as (w1 & w2 & Hd1 & Hd2 & Hl & _).
  exists w1, w2. split; [exact Hd1|]. split; [exact Hd2|].
  rewrite Hl. reflexivity.
Defined.

Lemma edit_then_save_unchanged_sample :
  exists w1 w2,
    dispatch service (StartEdit (VStr "id-2")) kept = (Normal tt, w1) /\
    dispatch service Save w1 = (Normal tt, w2) /\
    length (locations w2) = 2 /\
    nth_error (locations w2) 0 = Some (place "id-1" "Home").
Proof.
  assert (Hn : no_nullish (locations kept)) by (repeat constructor).
  assert (Hnd : NoDup (ids (locations kept))).
  { simpl. constructor; [|constructor; [|constructor]]; simpl.
    - intros [H|[]]. discriminate H.
    - intros []. }
  assert (Hne : "id-2" <> "") by discriminate.
  assert (Hin : In (place "id-2" "Work") (locations kept))
    by (simpl; right; left; reflexivity).
  destruct (Flows.edit_then_save_unchanged service kept "id-2"
              (place "id-2" "Work") Hn Hnd Hne Hin eq_refl)
    as (w1 & w2 & Hd1 & Hd2 & Hlen & Hnth).
  exists w1, w2. split; [exact Hd1|]. split; [exact Hd2|].
  split; [exact Hlen|].
  destruct (Hnth 0 (place "id-1" "Home") eq_refl) as (x' & Hx' & _ & Hother & _).
  rewrite Hx'. f_equal. apply Hother. discriminate.
Defined.

Lemma click_then_add_sample :
  exists w1 w2 newLoc,
    dispatch service (Click (VNum (of_Z 40)) (VNum (of_Z (-74)))) (initial [])
      = (Normal tt, w1) /\
    dispatch service (Add "id-1" (of_Z 1700000000000)) w1 = (Normal tt, w2) /\
    locations w2 = [newLoc] /\
    own newLoc "title" = VStr "Jersey City".
Proof.
  destruct (Flows.click_then_add service (initial [])
              (VNum (of_Z 40)) (VNum (of_Z (-74))) "id-1" (of_Z 1700000000000)
              eq_refl)
    as (w1 & w2 & Hd1 & Hd2 & Hl & _).
  exists w1, w2. eexists. split; [exact Hd1|]. split; [exact Hd2|].
  split; [exact Hl | reflexivity].
Defined.

Lemma collecting_stays_off_sample :
  isCollecting
    (snd (dispatch service ToggleList
            (snd (dispatch service (Click VNull VNull) kept)))) = VBool false.
Proof.
  assert (Ht : trace service (fun ev => ev <> Reset true) kept
                 (snd (dispatch service ToggleList
                         (snd (dispatch service (Click VNull VNull) kept))))).
  { apply trace_step with (ev := Click VNull VNull); [discriminate|].
    apply trace_step with (ev := ToggleList); [discriminate|].
    apply trace_here. }
  exact (proj1 (Flows.collecting_stays_off service kept _ eq_refl Ht)).
Defined.

Lemma local_events_write_nothing_sample :
  localStorage (snd (dispatch service Export kept)) = localStorage kept /\
  locations (snd (dispatch service Export kept)) = locations kept.
Proof.
  destruct (Flows.local_events_write_nothing service Export kept eq_refl eq_refl)
    as (Hs & Hl & _).
  split; [exact Hs | exact Hl].
Defined.

Lemma run_keeps_ids_unique_sample :
  NoDup (ids (locations
    (snd (dispatch service (Add "id-1" (of_Z 1)) (with_draft [] clicked))))).
Proof.
  assert (Hr : run service (with_draft [] clicked)
                 (snd (dispatch service (Add "id-1" (of_Z 1))
                         (with_draft [] clicked)))).
  { apply run_step with (ev := Add "id-1" (of_Z 1)).
    - simpl. tauto.
    - apply run_here. }
  exact (Sessions.run_keeps_ids_unique service (with_draft [] clicked) _ eq_refl Hr).
Defined.

End Runs.
